(** * Content versioning and chunking pipeline

    A shallow embedding of
      - [app/services/vectorizer.py]         (class [Vectorizer])
      - [app/services/document_processor.py] ([DocumentProcessor]:
        [process_document], [update_document], [get_document_content])
    together with the two stores these services talk to: the MongoDB
    collection [documents_collection] and the SQL table
    [document_embeddings] reached through a SQLAlchemy session.

    Python [int] is [Z].  A Python [str] value (document text, document
    and chunk ids) is a list of Unicode code points ([str]); the keys of
    dictionaries and the field names of stored documents are Rocq
    [string]s. *)

From Stdlib Require Import ZArith List Lia Bool String Ascii NArith.
From Stdlib Require Import Permutation.
From Stdlib Require Import DecimalString.
From Stdlib Require DecimalNat DecimalFacts.
Import ListNotations.
Open Scope Z_scope.

(* ================================================================== *)
(** * Python string primitives used by [chunk_text] *)
(* ================================================================== *)

Module PyStr.

Definition char := N.
Definition str := list char.

(** A string literal as code points (for examples). *)
Definition lit (s : string) : str :=
  map N_of_ascii (list_ascii_of_string s).

Definition len (s : str) : Z := Z.of_nat (List.length s).

(** The characters matched by [\s] in a [str] pattern and removed by
    [str.strip()]: CPython's [Py_UNICODE_ISSPACE]. *)
Definition is_space (c : char) : bool :=
  let c := Z.of_N c in
  ((9 <=? c) && (c <=? 13)) || ((28 <=? c) && (c <=? 32))
  || (c =? 133) || (c =? 160) || (c =? 5760)
  || ((8192 <=? c) && (c <=? 8202))
  || (c =? 8232) || (c =? 8233) || (c =? 8239) || (c =? 8287)
  || (c =? 12288).

Definition SPACE : char := 32%N.
Definition NEWLINE : char := 10%N.
Definition PERIOD : char := 46%N.

(** [re.sub(r'\s+', ' ', text)]: every maximal run of whitespace becomes
    one space.  [in_run] tells that the previous character was
    whitespace, so the run has already been replaced. *)
Fixpoint re_sub_ws_from (in_run : bool) (text : str) : str :=
  match text with
  | [] => []
  | c :: rest =>
      if is_space c
      then (if in_run then re_sub_ws_from true rest
            else SPACE :: re_sub_ws_from true rest)
      else c :: re_sub_ws_from false rest
  end.

Definition re_sub_ws (text : str) : str := re_sub_ws_from false text.

Fixpoint lstrip (s : str) : str :=
  match s with
  | [] => []
  | c :: rest => if is_space c then lstrip rest else s
  end.

Definition rstrip (s : str) : str := rev (lstrip (rev s)).

(** [s.strip()] *)
Definition strip (s : str) : str := rstrip (lstrip s).

(** How a slice bound [i] is read against a sequence of length [n]:
    negative bounds count from the end, and everything is clamped. *)
Definition clamp_index (n i : Z) : Z :=
  if i <? 0 then Z.max (i + n) 0 else Z.min i n.

(** [s[lo:hi]] *)
Definition slice (s : str) (lo hi : Z) : str :=
  let lo' := clamp_index (len s) lo in
  let hi' := clamp_index (len s) hi in
  firstn (Z.to_nat (hi' - lo')) (skipn (Z.to_nat lo') s).

Fixpoint starts_with (sub s : str) : bool :=
  match sub, s with
  | [], _ => true
  | _ :: _, [] => false
  | a :: sub', b :: s' => N.eqb a b && starts_with sub' s'
  end.

(** [rfind_from i s sub]: [s] is the suffix that starts at index [i];
    the highest index at which [sub] occurs, or [-1]. *)
Fixpoint rfind_from (i : Z) (s sub : str) : Z :=
  match s with
  | [] => if starts_with sub [] then i else -1
  | _ :: s' =>
      let later := rfind_from (i + 1) s' sub in
      if later =? -1
      then (if starts_with sub s then i else -1)
      else later
  end.

(** [s.rfind(sub)] *)
Definition rfind (s sub : str) : Z := rfind_from 0 s sub.

End PyStr.

Import PyStr.

(* ================================================================== *)
(** * vectorizer.py: the chunker *)
(* ================================================================== *)

(** [self.chunk_size], [self.chunk_overlap] *)
Record Vectorizer := mkVectorizer { chunk_size : Z; chunk_overlap : Z }.

(** An exception that leaves a function, or its return value. *)
Inductive exn :=
| KeyError | TypeError | WriteError | DataError | IntegrityError.

Inductive outcome (A : Type) :=
| Returned (a : A)
| Raised (e : exn).
Arguments Returned {A} a.
Arguments Raised {A} e.

(** [Vectorizer.__init__]: two assignments, no check and no [raise]. *)
Definition init (chunk_size chunk_overlap : Z) : outcome Vectorizer :=
  Returned {| chunk_size := chunk_size; chunk_overlap := chunk_overlap |}.

Definition default_chunk_size : Z := 1000.
Definition default_chunk_overlap : Z := 200.

(** [text = re.sub(r'\s+', ' ', text).strip()] *)
Definition clean (text : str) : str := strip (re_sub_ws text).

Definition PARA_BREAK : str := [NEWLINE; NEWLINE].
Definition SENTENCE_BREAK : str := [PERIOD; SPACE].

(** Lines 33-51 of one loop iteration: the chunk that is appended and the
    value of [end] when line 53 is reached. *)
Definition cut (self : Vectorizer) (text : str) (start : Z) : str * Z :=
  let end_ := start + chunk_size self in
  let end_ := if end_ >? len text then len text else end_ in
  let chunk := slice text start end_ in
  if end_ <? len text then
    let para_break := rfind chunk PARA_BREAK in
    if negb (para_break =? -1) && (para_break >? chunk_size self / 2) then
      (slice chunk 0 para_break, start + para_break)
    else
      let sentence_break := rfind chunk SENTENCE_BREAK in
      if negb (sentence_break =? -1)
         && (sentence_break >? chunk_size self / 2) then
        (slice chunk 0 (sentence_break + 1), start + sentence_break + 1)
      else (chunk, end_)
  else (chunk, end_).

(** The loop variables [start] and [chunks]. *)
Definition loop_state : Type := Z * list str.

(** One pass through the body of [while start < len(text)]. *)
Definition loop_body (self : Vectorizer) (text : str) (st : loop_state)
  : loop_state :=
  let '(chunk, end_) := cut self text (fst st) in
  (end_ - chunk_overlap self, snd st ++ [chunk]).

(** The [while] loop; [None] when [fuel] passes do not reach the exit. *)
Fixpoint while_loop (fuel : nat) (self : Vectorizer) (text : str)
  (st : loop_state) : option (list str) :=
  if fst st <? len text then
    match fuel with
    | O => None
    | S fuel' => while_loop fuel' self text (loop_body self text st)
    end
  else Some (snd st).

(** The loop variables after at most [n] passes. *)
Fixpoint passes (n : nat) (self : Vectorizer) (text : str)
  (st : loop_state) : loop_state :=
  match n with
  | O => st
  | S n' =>
      if fst st <? len text
      then passes n' self text (loop_body self text st)
      else st
  end.

(** [Vectorizer.chunk_text] *)
Definition chunk_text (fuel : nat) (self : Vectorizer) (text : str)
  : option (list str) :=
  match text with
  | [] => Some []
  | _ :: _ =>
      let text := clean text in
      if len text <=? chunk_size self then Some [text]
      else while_loop fuel self text (0, [])
  end.

(** [end] as lines 33-35 leave it: the [chunk_size] limit. *)
Definition size_limit (self : Vectorizer) (text : str) (start : Z) : Z :=
  let end_ := start + chunk_size self in
  if end_ >? len text then len text else end_.

(** The last [k] characters of [s] (all of [s] when it is shorter). *)
Definition lastn (k : Z) (s : str) : str :=
  skipn (List.length s - Z.to_nat k) s.

(** Chunk [b] begins with the trailing [k] characters of chunk [a]. *)
Definition junction_ok (k : Z) (a b : str) : bool :=
  (k <=? len a) && starts_with (lastn k a) b.

(** Every two consecutive chunks of the sequence share [k] characters at
    their junction. *)
Fixpoint all_junctions (k : Z) (chunks : list str) : bool :=
  match chunks with
  | [] => true
  | a :: rest =>
      match rest with
      | [] => true
      | b :: _ => junction_ok k a b && all_junctions k rest
      end
  end.

(** What holds of the loop variables between passes when the overlap is
    honoured: the cursor is inside the text with room for the overlap,
    the junctions so far are good, and the last chunk emitted is
    [text[s:e]] with the cursor at [e - chunk_overlap]. *)
Definition junction_inv (self : Vectorizer) (text : str) (st : loop_state)
  : Prop :=
  0 <= fst st /\ fst st + chunk_overlap self <= len text /\
  all_junctions (chunk_overlap self) (snd st) = true /\
  (snd st = [] \/
   exists pre s e, snd st = pre ++ [slice text s e] /\
                   0 <= s /\ s + chunk_overlap self <= e /\ e <= len text /\
                   fst st = e - chunk_overlap self).

(* ================================================================== *)
(** * The MongoDB collection [documents_collection] *)
(* ================================================================== *)

Module Mongo.

#[local] Set Warnings "-register-all".

(** BSON / Python values as the services build and read them.  A
    dictionary keeps its insertion order. *)
Inductive value :=
| VNone
| VStr (s : str)
| VInt (n : Z)
| VTime (t : Z)
| VList (l : list value)
| VDict (d : list (string * value)).

Definition dict := list (string * value).
Definition document := dict.
Definition collection := list document.

(** [d.get(key)] *)
Fixpoint dict_get (d : dict) (key : string) : option value :=
  match d with
  | [] => None
  | (k, v) :: rest => if String.eqb k key then Some v else dict_get rest key
  end.

(** [d[key] = v]: an existing key keeps its place, a new one goes last. *)
Fixpoint dict_set (d : dict) (key : string) (v : value) : dict :=
  match d with
  | [] => [(key, v)]
  | (k, w) :: rest =>
      if String.eqb k key then (k, v) :: rest
      else (k, w) :: dict_set rest key v
  end.

(** [{**a, **b}] *)
Definition dict_merge (a b : dict) : dict :=
  fold_left (fun acc kv => dict_set acc (fst kv) (snd kv)) b a.

Definition str_eqb (a b : str) : bool :=
  if list_eq_dec N.eq_dec a b then true else false.

Fixpoint value_eqb (a b : value) : bool :=
  match a, b with
  | VNone, VNone => true
  | VStr s, VStr t => str_eqb s t
  | VInt n, VInt m => n =? m
  | VTime t, VTime u => t =? u
  | VList l, VList m =>
      (fix all2 (l m : list value) : bool :=
         match l, m with
         | [], [] => true
         | x :: l', y :: m' => value_eqb x y && all2 l' m'
         | _, _ => false
         end) l m
  | VDict d, VDict e =>
      (fix all2 (d e : list (string * value)) : bool :=
         match d, e with
         | [], [] => true
         | (k, x) :: d', (k', y) :: e' =>
             String.eqb k k' && value_eqb x y && all2 d' e'
         | _, _ => false
         end) d e
  | _, _ => false
  end.

(** Python truth value: [None], [0], and empty strings, lists and
    dictionaries are false. *)
Definition truthy (v : value) : bool :=
  match v with
  | VNone => false
  | VStr s => negb (len s =? 0)
  | VInt n => negb (n =? 0)
  | VTime _ => true
  | VList l => match l with [] => false | _ => true end
  | VDict d => match d with [] => false | _ => true end
  end.

(** The filter [{"document_id": document_id}]. *)
Definition matches (document_id : str) (doc : document) : bool :=
  match dict_get doc "document_id" with
  | Some v => value_eqb v (VStr document_id)
  | None => false
  end.

(** [documents_collection.find_one({"document_id": document_id})] *)
Definition find_one (coll : collection) (document_id : str)
  : option document :=
  find (matches document_id) coll.

Definition has_dollar_prefix (name : string) : bool :=
  match name with
  | String c _ => Ascii.eqb c "$"%char
  | EmptyString => false
  end.

(** What the server does with the argument of a [$set] operator: every
    entry names a field of the stored document and assigns it.  A name
    that starts with [$] is not an operator here (operators are read at
    the top level of the update document only); the server refuses a
    top-level field name with a dollar prefix in an update (error 52,
    DollarPrefixedFieldName), nothing is written, and the driver raises
    [WriteError].  (Dotted paths are not used by the services and are not
    modelled.) *)
Fixpoint apply_set (fields : dict) (doc : document) : option document :=
  match fields with
  | [] => Some doc
  | (name, v) :: rest =>
      if has_dollar_prefix name then None
      else apply_set rest (dict_set doc name v)
  end.

(** The first document of [coll] that passes [p], replaced by [f] of it
    when [f] accepts; the count of matched documents that changed. *)
Fixpoint update_first (p : document -> bool)
  (f : document -> option document) (coll : collection)
  : outcome (collection * Z) :=
  match coll with
  | [] => Returned ([], 0)
  | doc :: rest =>
      if p doc then
        match f doc with
        | None => Raised WriteError
        | Some doc' =>
            Returned (doc' :: rest,
                      if value_eqb (VDict doc') (VDict doc) then 0 else 1)
        end
      else
        match update_first p f rest with
        | Returned (rest', n) => Returned (doc :: rest', n)
        | Raised e => Raised e
        end
  end.

(** [documents_collection.update_one({"document_id": document_id},
    {"$set": fields})]: the new collection and [modified_count], or the
    write error. *)
Definition update_one_set (coll : collection) (document_id : str)
  (fields : dict) : outcome (collection * Z) :=
  update_first (matches document_id) (apply_set fields) coll.

End Mongo.

Import Mongo.

(* ================================================================== *)
(** * document_processor.py *)
(* ================================================================== *)

(** Lines 51-66 of [update_document]: the dictionary [update_data] handed
    to [$set], built from the current content and metadata of the stored
    document.  [{**current_doc["metadata"], **metadata}] fails with
    [TypeError] when the stored metadata is not a dictionary. *)
Definition build_update_data (cur_content cur_metadata : value)
  (now1 now2 : Z) (content : str) (metadata : option dict) : outcome dict :=
  let version_entry :=
    [("content", cur_content);
     ("metadata", cur_metadata);
     ("timestamp", VTime now1)]%string in
  let update_data :=
    [("content", VStr content);
     ("updated_at", VTime now2);
     ("$push", VDict [("version_history", VDict version_entry)])
    ]%string in
  match metadata with
  | Some ((_ :: _) as patch) =>
      match cur_metadata with
      | VDict cur =>
          Returned (dict_set update_data "metadata"
                      (VDict (dict_merge cur patch)))
      | _ => Raised TypeError
      end
  | _ => Returned update_data
  end.

(** [DocumentProcessor.update_document].  [now1] and [now2] are what the
    two calls of [datetime.utcnow()] return.  The result is the collection
    afterwards and how the call ends. *)
Definition update_document (coll : collection) (now1 now2 : Z)
  (document_id : str) (content : str) (metadata : option dict)
  : collection * outcome bool :=
  match find_one coll document_id with
  | None => (coll, Returned false)
  | Some current_doc =>
      match dict_get current_doc "content",
            dict_get current_doc "metadata" with
      | Some cur_content, Some cur_metadata =>
          match build_update_data cur_content cur_metadata now1 now2
                  content metadata with
          | Raised e => (coll, Raised e)
          | Returned update_data =>
              match update_one_set coll document_id update_data with
              | Raised e => (coll, Raised e)
              | Returned (coll', modified_count) =>
                  (coll', Returned (modified_count >? 0))
              end
          end
      | _, _ => (coll, Raised KeyError)
      end
  end.

(** The [version_history] array of a stored document. *)
Definition version_history (doc : document) : list value :=
  match dict_get doc "version_history" with
  | Some (VList l) => l
  | _ => []
  end.

(* ================================================================== *)
(** * The SQL table [document_embeddings] *)
(* ================================================================== *)

Module DocumentEmbedding.

(** The columns the service reads and writes.  ([id] and [created_at]
    are filled by column defaults and never looked at.) *)
Record t := mk {
  document_id : str;
  chunk_id : str;
  chunk_text : str;
  embedding : option str
}.

Definition set_embedding (r : t) (e : option str) : t :=
  {| document_id := document_id r;
     chunk_id := chunk_id r;
     chunk_text := chunk_text r;
     embedding := e |}.

End DocumentEmbedding.

(** The rows of the table.  The queries of the service carry no
    [ORDER BY]: the order of the list stands for an order the code does
    not fix, and what is said about listings below is said up to order
    unless rows are only added. *)
Definition table := list DocumentEmbedding.t.

(* ================================================================== *)
(** * vectorizer.py: the services on the two stores *)
(* ================================================================== *)

Fixpoint enumerate_from {A : Type} (i : nat) (l : list A) : list (nat * A) :=
  match l with
  | [] => []
  | x :: rest => (i, x) :: enumerate_from (S i) rest
  end.

(** [enumerate(l)] *)
Definition enumerate {A : Type} (l : list A) : list (nat * A) :=
  enumerate_from 0 l.

(** [f"{document_id}-chunk-{i}"] *)
Definition make_chunk_id (document_id : str) (i : nat) : str :=
  document_id ++ lit "-chunk-" ++ lit (NilZero.string_of_uint (Nat.to_uint i)).

(** The rows handed to [db.add] and the ids collected in [chunk_ids] by
    the [for] loop of [vectorize_document]. *)
Definition add_chunks (document_id : str) (chunks : list str)
  : table * list str :=
  fold_left
    (fun (acc : table * list str) (ic : nat * str) =>
       let chunk_id := make_chunk_id document_id (fst ic) in
       (fst acc ++ [DocumentEmbedding.mk document_id chunk_id (snd ic) None],
        snd acc ++ [chunk_id]))
    (enumerate chunks) ([], []).

(** [self.chunk_text(content)] for whatever [doc.get("content", "")]
    holds: a falsy value leaves through [if not text], any other
    non-string makes [re.sub] raise. *)
Definition chunk_content (fuel : nat) (self : Vectorizer) (content : value)
  : option (outcome (list str)) :=
  match content with
  | VStr text => option_map Returned (chunk_text fuel self text)
  | v => if truthy v then Some (Raised TypeError) else Some (Returned [])
  end.

(** [doc.get("content", "")] *)
Definition content_of (doc : document) : value :=
  match dict_get doc "content" with
  | Some v => v
  | None => VStr []
  end.

(** What the relational store decides about a document id when a row of
    [document_embeddings] is inserted.  The column [document_id] is a UUID
    with a foreign key to [document_metadata.id] (models/document.py:49):
    [is_uuid] tells whether the text is accepted as a UUID, [has_metadata]
    whether [document_metadata] holds a row with that id.  The services
    modelled here never write [document_metadata]. *)
Record Postgres := mkPostgres {
  is_uuid : str -> bool;
  has_metadata : str -> bool
}.

(** [db.commit()] after the [db.add] calls of [vectorize_document]: with
    nothing pending nothing is sent; otherwise the inserts are refused
    with [DataError] when the document id is not a UUID and with
    [IntegrityError] when it has no metadata row, and no row is stored. *)
Definition commit_rows (pg : Postgres) (document_id : str)
  (pending : table) (db : table) : outcome table :=
  match pending with
  | [] => Returned db
  | _ :: _ =>
      if negb (is_uuid pg document_id) then Raised DataError
      else if negb (has_metadata pg document_id) then Raised IntegrityError
      else Returned (db ++ pending)
  end.

(** [Vectorizer.vectorize_document]: the table after the call and the
    returned chunk ids or the exception; [None] when [chunk_text] does
    not come back within [fuel] passes. *)
Definition vectorize_document (fuel : nat) (self : Vectorizer)
  (pg : Postgres) (coll : collection) (document_id : str) (db : table)
  : option (table * outcome (list str)) :=
  match find_one coll document_id with
  | None => Some (db, Returned [])
  | Some doc =>
      match chunk_content fuel self (content_of doc) with
      | None => None
      | Some (Raised e) => Some (db, Raised e)
      | Some (Returned chunks) =>
          let '(pending, chunk_ids) := add_chunks document_id chunks in
          match commit_rows pg document_id pending db with
          | Raised e => Some (db, Raised e)
          | Returned db' => Some (db', Returned chunk_ids)
          end
      end
  end.

(** One entry of the list returned by [get_document_chunks]. *)
Record chunk_info := mkChunkInfo {
  info_chunk_id : str;
  info_chunk_text : str;
  info_embedding : option str
}.

(** The dictionary built for one row by the list comprehension of
    [get_document_chunks]. *)
Definition chunk_info_of (chunk : DocumentEmbedding.t) : chunk_info :=
  mkChunkInfo (DocumentEmbedding.chunk_id chunk)
              (DocumentEmbedding.chunk_text chunk)
              (DocumentEmbedding.embedding chunk).

(** [Vectorizer.get_document_chunks] *)
Definition get_document_chunks (document_id : str) (db : table)
  : list chunk_info :=
  map chunk_info_of
      (filter (fun chunk =>
                 str_eqb (DocumentEmbedding.document_id chunk) document_id)
              db).

(** [db.query(DocumentEmbedding).filter(chunk_id == ...).first()] followed
    by the assignment to [chunk.embedding]: the first matching row gets
    the new embedding.  [None] when no row matches.  (Which of several
    rows with the chunk id is taken, and where the row is listed
    afterwards, is not fixed by the code: this function is one of the
    behaviours described by [update_embedding_allows] below.) *)
Fixpoint set_first_embedding (chunk_id : str) (e : str) (db : table)
  : option table :=
  match db with
  | [] => None
  | chunk :: rest =>
      if str_eqb (DocumentEmbedding.chunk_id chunk) chunk_id
      then Some (DocumentEmbedding.set_embedding chunk (Some e) :: rest)
      else option_map (cons chunk) (set_first_embedding chunk_id e rest)
  end.

(** [Vectorizer.update_embedding].  [py_str] is [str] on a list of
    floats. *)
Definition update_embedding {F : Type} (py_str : list F -> str)
  (chunk_id : str) (embedding : list F) (db : table) : table * bool :=
  match set_first_embedding chunk_id (py_str embedding) db with
  | None => (db, false)
  | Some db' => (db', true)
  end.

(* ================================================================== *)
(** * document_processor.py: ingest and read *)
(* ================================================================== *)

(** [schemas.DocumentType] *)
Inductive DocumentType :=
| SOP | RISK_REGISTER | ROLE_CHART | PROCESS_MANUAL | ARCHITECTURE_DIAGRAM
| INCIDENT_LOG | VENDOR_CONTRACT | POLICY | DR_BCP_PLAN | CHAT_HISTORY
| EXTERNAL_DOCUMENT.

(** [document_type.value] *)
Definition DocumentType_value (t : DocumentType) : str :=
  lit match t with
      | SOP => "SOP"
      | RISK_REGISTER => "RISK_REGISTER"
      | ROLE_CHART => "ROLE_CHART"
      | PROCESS_MANUAL => "PROCESS_MANUAL"
      | ARCHITECTURE_DIAGRAM => "ARCHITECTURE_DIAGRAM"
      | INCIDENT_LOG => "INCIDENT_LOG"
      | VENDOR_CONTRACT => "VENDOR_CONTRACT"
      | POLICY => "POLICY"
      | DR_BCP_PLAN => "DR_BCP_PLAN"
      | CHAT_HISTORY => "CHAT_HISTORY"
      | EXTERNAL_DOCUMENT => "EXTERNAL_DOCUMENT"
      end.

Module DocumentCreate.

(** [schemas.DocumentCreate].  [org_id] is carried as the text that
    [str(document.org_id)] gives. *)
Record t := mk {
  title : str;
  document_type : DocumentType;
  description : option str;
  org_id : str;
  owner_email : str;
  tags : option (list str);
  content : str;
  file_format : option str
}.

End DocumentCreate.

(** An [Optional[str]] as a stored value. *)
Definition optional_str (o : option str) : value :=
  match o with
  | Some s => VStr s
  | None => VNone
  end.

(** [document.tags or []] *)
Definition tags_or_empty (tags : option (list str)) : list value :=
  match tags with
  | Some ((_ :: _) as l) => map VStr l
  | _ => []
  end.

(** [documents_collection.insert_one(doc)]: the document is stored after
    the ones already there, with the [_id] the driver gives it in front
    ([oid], the object id as a number).  No unique index is assumed, so
    the insert does not fail. *)
Definition insert_one (coll : collection) (oid : Z) (doc : document)
  : collection :=
  coll ++ [(("_id"%string, VInt oid) :: doc)].

(** [DocumentProcessor.process_document].  [uuid4] is what
    [str(uuid.uuid4())] returns, [now1] and [now2] what the two calls of
    [datetime.utcnow()] return.  The result is the collection afterwards
    and the returned document id. *)
Definition process_document (coll : collection) (uuid4 : str) (oid : Z)
  (now1 now2 : Z) (document : DocumentCreate.t) : collection * str :=
  let document_id := uuid4 in
  let mongo_doc :=
    [("document_id", VStr document_id);
     ("org_id", VStr (DocumentCreate.org_id document));
     ("document_type",
      VStr (DocumentType_value (DocumentCreate.document_type document)));
     ("content", VStr (DocumentCreate.content document));
     ("metadata",
      VDict [("title", VStr (DocumentCreate.title document));
             ("description",
              optional_str (DocumentCreate.description document));
             ("owner_email", VStr (DocumentCreate.owner_email document));
             ("tags", VList (tags_or_empty (DocumentCreate.tags document)));
             ("file_format",
              optional_str (DocumentCreate.file_format document))]);
     ("version_history", VList []);
     ("created_at", VTime now1);
     ("updated_at", VTime now2)]%string in
  (insert_one coll oid mongo_doc, document_id).

(** [schemas.DocumentContent]; [U] is the type of UUID objects. *)
Record DocumentContent (U : Type) := mkDocumentContent {
  dc_document_id : U;
  dc_content : str;
  dc_metadata : dict;
  dc_version_history : list dict
}.
Arguments mkDocumentContent {U}.
Arguments dc_document_id {U}.
Arguments dc_content {U}.
Arguments dc_metadata {U}.
Arguments dc_version_history {U}.

(** How [get_document_content] can fail: [doc[...]] on a missing key, or
    the validation of the [DocumentContent] fields. *)
Inductive read_error := MissingKey | ValidationError.

(** A value accepted for [List[Dict[str, Any]]]. *)
Fixpoint all_dicts (l : list value) : option (list dict) :=
  match l with
  | [] => Some []
  | VDict d :: rest => option_map (cons d) (all_dicts rest)
  | _ :: _ => None
  end.

(** [DocumentContent(document_id=.., content=.., metadata=..,
    version_history=..)]: the id must be a string that parses as a UUID
    ([parse_uuid]), the content a string, the metadata a dictionary, the
    history a list of dictionaries. *)
Definition validate_content {U : Type} (parse_uuid : str -> option U)
  (document_id content metadata version_history : value)
  : option (DocumentContent U) :=
  match document_id, content, metadata, version_history with
  | VStr i, VStr c, VDict m, VList h =>
      match parse_uuid i, all_dicts h with
      | Some u, Some h' => Some (mkDocumentContent u c m h')
      | _, _ => None
      end
  | _, _, _, _ => None
  end.

(** [DocumentProcessor.get_document_content] *)
Definition get_document_content {U : Type} (parse_uuid : str -> option U)
  (coll : collection) (document_id : str)
  : read_error + option (DocumentContent U) :=
  match find_one coll document_id with
  | None => inr None
  | Some doc =>
      match dict_get doc "document_id", dict_get doc "content",
            dict_get doc "metadata", dict_get doc "version_history" with
      | Some i, Some c, Some m, Some h =>
          match validate_content parse_uuid i c m h with
          | Some dc => inr (Some dc)
          | None => inl ValidationError
          end
      | _, _, _, _ => inl MissingKey
      end
  end.

(* ================================================================== *)
(** * Notions used to state the properties *)
(* ================================================================== *)

(** From position to position: a whitespace character must be a plain
    space and may only come when [after_word] holds, that is right after
    a character that is not whitespace. *)
Fixpoint single_spaced_from (after_word : bool) (s : str) : bool :=
  match s with
  | [] => true
  | c :: rest =>
      if is_space c
      then N.eqb c SPACE && after_word && single_spaced_from false rest
      else single_spaced_from true rest
  end.

(** The same, and the string does not end in whitespace. *)
Fixpoint tidy_from (after_word : bool) (s : str) : bool :=
  match s with
  | [] => after_word
  | c :: rest =>
      if is_space c
      then N.eqb c SPACE && after_word && tidy_from false rest
      else tidy_from true rest
  end.

(** Words separated by single spaces, with no whitespace at either end
    (the empty string included). *)
Definition tidy (s : str) : bool :=
  match s with
  | [] => true
  | _ :: _ => tidy_from false s
  end.

(** A hexadecimal digit. *)
Definition is_hex (c : char) : bool :=
  let c := Z.of_N c in
  ((48 <=? c) && (c <=? 57)) || ((65 <=? c) && (c <=? 70))
  || ((97 <=? c) && (c <=? 102)).

Fixpoint canonical_uuid_from (i : nat) (s : str) : bool :=
  match s with
  | [] => Nat.eqb i 36
  | c :: rest =>
      (if Nat.eqb i 8 || Nat.eqb i 13 || Nat.eqb i 18 || Nat.eqb i 23
       then N.eqb c 45 else is_hex c)
      && canonical_uuid_from (S i) rest
  end.

(** The text of a UUID in the usual form, 8-4-4-4-12 hexadecimal digits:
    what [str(uuid.uuid4())] produces and every UUID parser accepts. *)
Definition canonical_uuid (s : str) : bool := canonical_uuid_from 0 s.

(** Every behaviour the code allows for [update_embedding] when the row
    order is not fixed: [.first()] may return any row with the chunk id,
    and the table afterwards is known up to the order of its rows.  [e]
    is the text stored as the embedding. *)
Definition update_embedding_allows (chunk_id e : str) (db db' : table)
  (ok : bool) : Prop :=
  (ok = false /\
   (forall r, In r db -> DocumentEmbedding.chunk_id r <> chunk_id) /\
   Permutation db' db)
  \/
  (ok = true /\
   exists r rest,
     Permutation db (r :: rest) /\
     DocumentEmbedding.chunk_id r = chunk_id /\
     Permutation db'
       (DocumentEmbedding.set_embedding r (Some e) :: rest)).

(** A listed chunk without its embedding. *)
Definition id_and_text (c : chunk_info) : str * str :=
  (info_chunk_id c, info_chunk_text c).

(** The characters of [s] that are not whitespace, in order. *)
Definition non_space_chars (s : str) : str :=
  filter (fun c => negb (is_space c)) s.

(** With no overlap the chunks emitted so far are the text up to the
    cursor, cut into non-empty pieces. *)
Definition cover_inv (text : str) (st : loop_state) : Prop :=
  0 <= fst st <= len text /\
  List.concat (snd st) = slice text 0 (fst st) /\
  Forall (fun c => 1 <= len c) (snd st).

(* ================================================================== *)
(** * Facts about the string primitives *)
(* ================================================================== *)

Section StringFacts.

Lemma len_nonneg (s : str) : 0 <= len s.
Proof. unfold len; lia. Qed.

(** After [re.sub] a whitespace character can only be the space that
    replaced a run. *)
Lemma re_sub_ws_chars (text : str) : forall in_run c,
  In c (re_sub_ws_from in_run text) -> c = SPACE \/ is_space c = false.
Proof.
  induction text as [|a rest IH]; intros in_run c Hin; simpl in Hin.
  - contradiction.
  - destruct (is_space a) eqn:Ha.
    + destruct in_run.
      * eauto.
      * destruct Hin as [<-|Hin]; [now left | eauto].
    + destruct Hin as [<-|Hin]; [now right | eauto].
Qed.

Lemma lstrip_incl (s : str) : forall c, In c (lstrip s) -> In c s.
Proof.
  induction s as [|a rest IH]; intros c Hin; simpl in *; [assumption|].
  destruct (is_space a); [right; auto | assumption].
Qed.

Lemma strip_incl (s : str) : forall c, In c (strip s) -> In c s.
Proof.
  intros c Hin. unfold strip, rstrip in Hin.
  apply in_rev, lstrip_incl in Hin. apply in_rev in Hin.
  now apply lstrip_incl.
Qed.

Lemma clean_chars (text : str) : forall c,
  In c (clean text) -> c = SPACE \/ is_space c = false.
Proof.
  intros c Hin. apply strip_incl in Hin.
  exact (re_sub_ws_chars text false c Hin).
Qed.

Lemma clean_no_newline (text : str) : ~ In NEWLINE (clean text).
Proof.
  intros Hin. apply clean_chars in Hin.
  destruct Hin as [H|H]; vm_compute in H; discriminate.
Qed.

Lemma firstn_incl {A : Type} (n : nat) (l : list A) : forall x,
  In x (firstn n l) -> In x l.
Proof.
  intros x Hin. rewrite <- (firstn_skipn n l). apply in_or_app. now left.
Qed.

Lemma skipn_incl {A : Type} (n : nat) (l : list A) : forall x,
  In x (skipn n l) -> In x l.
Proof.
  intros x Hin. rewrite <- (firstn_skipn n l). apply in_or_app. now right.
Qed.

Lemma slice_incl (s : str) (lo hi : Z) : forall c,
  In c (slice s lo hi) -> In c s.
Proof.
  intros c Hin. unfold slice in Hin.
  apply firstn_incl, skipn_incl in Hin. exact Hin.
Qed.

Lemma len_slice_le (s : str) (lo hi : Z) : len (slice s lo hi) <= len s.
Proof.
  unfold slice, len. rewrite length_firstn, length_skipn. lia.
Qed.

Lemma len_slice_from (s : str) (lo hi : Z) :
  0 <= lo -> len (slice s lo hi) <= Z.max 0 (len s - lo).
Proof.
  intros Hlo. unfold slice.
  assert (Hc : clamp_index (len s) lo = Z.min lo (len s)).
  { unfold clamp_index. destruct (lo <? 0) eqn:E; [apply Z.ltb_lt in E; lia|reflexivity]. }
  rewrite Hc. unfold len. rewrite length_firstn, length_skipn. unfold len. lia.
Qed.

(** In range, a slice is the plain sublist. *)
Lemma slice_in_range (s : str) (lo hi : Z) :
  0 <= lo <= hi -> hi <= len s ->
  slice s lo hi = firstn (Z.to_nat (hi - lo)) (skipn (Z.to_nat lo) s).
Proof.
  intros H1 H2. unfold slice, clamp_index.
  destruct (lo <? 0) eqn:E1; [apply Z.ltb_lt in E1; lia|].
  destruct (hi <? 0) eqn:E2; [apply Z.ltb_lt in E2; lia|].
  rewrite !Z.min_l by lia. reflexivity.
Qed.

Lemma len_slice_in_range (s : str) (lo hi : Z) :
  0 <= lo <= hi -> hi <= len s -> len (slice s lo hi) = hi - lo.
Proof.
  intros H1 H2. rewrite slice_in_range by assumption.
  unfold len in *. rewrite length_firstn, length_skipn. lia.
Qed.

(** [s[lo:hi][:k] = s[lo:lo+k]] *)
Lemma slice_slice_prefix (s : str) (lo hi k : Z) :
  0 <= lo <= hi -> hi <= len s -> 0 <= k <= hi - lo ->
  slice (slice s lo hi) 0 k = slice s lo (lo + k).
Proof.
  intros H1 H2 H3.
  rewrite (slice_in_range (slice s lo hi) 0 k)
    by (rewrite ?len_slice_in_range; lia).
  rewrite (slice_in_range s lo hi), (slice_in_range s lo (lo + k)) by lia.
  simpl skipn. rewrite firstn_firstn. f_equal. lia.
Qed.

Lemma firstn_plus {A : Type} (n m : nat) : forall l : list A,
  firstn (n + m) l = firstn n l ++ firstn m (skipn n l).
Proof.
  induction n as [|n IH]; intros l; [reflexivity|].
  destruct l as [|x l]; simpl.
  - now rewrite firstn_nil.
  - now rewrite IH.
Qed.

(** [s[lo:hi] = s[lo:mid] + s[mid:hi]] *)
Lemma slice_split (s : str) (lo mid hi : Z) :
  0 <= lo <= mid -> mid <= hi -> hi <= len s ->
  slice s lo hi = slice s lo mid ++ slice s mid hi.
Proof.
  intros H1 H2 H3. rewrite !slice_in_range by lia.
  replace (Z.to_nat (hi - lo))
    with (Z.to_nat (mid - lo) + Z.to_nat (hi - mid))%nat by lia.
  rewrite firstn_plus. f_equal. rewrite skipn_skipn.
  do 2 f_equal. lia.
Qed.

Lemma starts_with_app (a b : str) : starts_with a (a ++ b) = true.
Proof.
  induction a as [|x a IH]; simpl; [reflexivity|].
  now rewrite N.eqb_refl, IH.
Qed.

Lemma starts_with_head (a : char) (sub s : str) :
  starts_with (a :: sub) s = true -> In a s.
Proof.
  destruct s as [|b s']; simpl; [discriminate|].
  intros H. apply andb_prop in H. destruct H as [H _].
  apply N.eqb_eq in H. now left.
Qed.

Lemma starts_with_len (sub s : str) :
  starts_with sub s = true -> len sub <= len s.
Proof.
  revert s. induction sub as [|a sub IH]; intros s H.
  - apply len_nonneg.
  - destruct s as [|b s']; simpl in H; [discriminate|].
    apply andb_prop in H. destruct H as [_ H]. apply IH in H.
    unfold len in *. simpl. lia.
Qed.

(** [rfind] answers [-1] or the index of an occurrence. *)
Lemma rfind_from_spec (sub s : str) : forall i,
  0 <= i ->
  rfind_from i s sub = -1 \/
  (i <= rfind_from i s sub <= i + len s - len sub /\
   starts_with sub (skipn (Z.to_nat (rfind_from i s sub - i)) s) = true).
Proof.
  induction s as [|a s' IH]; intros i Hi; cbn [rfind_from].
  - destruct (starts_with sub []) eqn:Esw; [right|now left].
    split.
    + apply starts_with_len in Esw. lia.
    + rewrite skipn_nil. exact Esw.
  - destruct (IH (i + 1) ltac:(lia)) as [E|[Hr Hs]].
    + rewrite E. rewrite Z.eqb_refl.
      destruct (starts_with sub (a :: s')) eqn:Esw; [right|now left].
      split.
      * apply starts_with_len in Esw. lia.
      * now rewrite Z.sub_diag.
    + destruct (rfind_from (i + 1) s' sub =? -1) eqn:E.
      * apply Z.eqb_eq in E. lia.
      * right. split.
        -- unfold len in *. cbn [List.length]. lia.
        -- replace (Z.to_nat (rfind_from (i + 1) s' sub - i))
             with (S (Z.to_nat (rfind_from (i + 1) s' sub - (i + 1))))
             by lia.
           exact Hs.
Qed.

Lemma rfind_spec (s sub : str) :
  rfind s sub = -1 \/
  (0 <= rfind s sub <= len s - len sub /\
   starts_with sub (skipn (Z.to_nat (rfind s sub)) s) = true).
Proof.
  destruct (rfind_from_spec sub s 0 ltac:(lia)) as [E|[Hr Hs]].
  - now left.
  - right. unfold rfind. rewrite Z.sub_0_r in Hs. split; [lia|exact Hs].
Qed.

(** A string in which the first character of [sub] does not occur has
    no occurrence of [sub]. *)
Lemma rfind_absent (a : char) (sub s : str) :
  ~ In a s -> rfind s (a :: sub) = -1.
Proof.
  intros Hnot. destruct (rfind_spec s (a :: sub)) as [E|[_ Hs]].
  - exact E.
  - exfalso. apply Hnot. apply starts_with_head in Hs.
    now apply skipn_incl in Hs.
Qed.

End StringFacts.

(* ================================================================== *)
(** * Facts about the chunker *)
(* ================================================================== *)

Section CutFacts.

Variable self : Vectorizer.
Variable text : str.

Lemma size_limit_le (start : Z) : size_limit self text start <= len text.
Proof.
  unfold size_limit.
  destruct (start + chunk_size self >? len text) eqn:E; [lia|].
  rewrite Z.gtb_ltb in E. apply Z.ltb_ge in E. exact E.
Qed.

Lemma size_limit_below (start : Z) :
  size_limit self text start < len text ->
  size_limit self text start = start + chunk_size self.
Proof.
  unfold size_limit.
  destruct (start + chunk_size self >? len text); [lia|reflexivity].
Qed.

(** [cut] read through [size_limit]. *)
Lemma cut_unfold (start : Z) :
  cut self text start =
  let limit := size_limit self text start in
  let chunk := slice text start limit in
  if limit <? len text then
    let para_break := rfind chunk PARA_BREAK in
    if negb (para_break =? -1) && (para_break >? chunk_size self / 2) then
      (slice chunk 0 para_break, start + para_break)
    else
      let sentence_break := rfind chunk SENTENCE_BREAK in
      if negb (sentence_break =? -1)
         && (sentence_break >? chunk_size self / 2) then
        (slice chunk 0 (sentence_break + 1), start + sentence_break + 1)
      else (chunk, limit)
  else (chunk, limit).
Proof. reflexivity. Qed.

(** A boundary found by [rfind] lies inside the candidate chunk. *)
Lemma break_inside (start : Z) (sub : str) :
  let chunk := slice text start (size_limit self text start) in
  rfind chunk sub <> -1 -> 1 <= len sub ->
  start + rfind chunk sub + len sub <= len text.
Proof.
  intros chunk Hfound Hsub.
  destruct (rfind_spec chunk sub) as [E|[Hr _]]; [contradiction|].
  destruct (Z.ltb_spec start 0) as [Hneg|Hpos].
  - pose proof (len_slice_le text start (size_limit self text start)).
    fold chunk in H. lia.
  - pose proof (len_slice_from text start (size_limit self text start) Hpos).
    fold chunk in H. lia.
Qed.

(** Whatever branch is taken, [end] never passes the end of the text. *)
Lemma cut_end_le (start : Z) : snd (cut self text start) <= len text.
Proof.
  rewrite cut_unfold. cbv zeta.
  pose proof (size_limit_le start) as Hlim.
  destruct (size_limit self text start <? len text); [|exact Hlim].
  set (chunk := slice text start (size_limit self text start)).
  destruct (negb (rfind chunk PARA_BREAK =? -1)
            && (rfind chunk PARA_BREAK >? chunk_size self / 2)) eqn:Ep.
  - apply andb_prop in Ep. destruct Ep as [Ep _].
    apply negb_true_iff, Z.eqb_neq in Ep.
    assert (Hsub : len PARA_BREAK = 2) by reflexivity.
    pose proof (break_inside start PARA_BREAK Ep ltac:(lia)) as H.
    cbn [snd]. fold chunk in H. lia.
  - destruct (negb (rfind chunk SENTENCE_BREAK =? -1)
              && (rfind chunk SENTENCE_BREAK >? chunk_size self / 2)) eqn:Es.
    + apply andb_prop in Es. destruct Es as [Es _].
      apply negb_true_iff, Z.eqb_neq in Es.
      assert (Hsub : len SENTENCE_BREAK = 2) by reflexivity.
      pose proof (break_inside start SENTENCE_BREAK Es ltac:(lia)) as H.
      cbn [snd]. fold chunk in H. lia.
    + exact Hlim.
Qed.

(** With a positive overlap the loop condition [start < len(text)] holds
    again after every pass, so the loop has no exit. *)
Lemma while_loop_no_exit :
  0 < chunk_overlap self ->
  forall fuel st, fst st < len text -> while_loop fuel self text st = None.
Proof.
  intros Hov. induction fuel as [|fuel IH]; intros st Hst; cbn [while_loop].
  - apply Z.ltb_lt in Hst. now rewrite Hst.
  - pose proof Hst as Hb. apply Z.ltb_lt in Hb. rewrite Hb.
    apply IH. unfold loop_body.
    pose proof (cut_end_le (fst st)) as Hle.
    destruct (cut self text (fst st)) as [chunk end_]. cbn [fst snd] in *.
    lia.
Qed.

End CutFacts.

Lemma clean_nil : clean [] = [].
Proof. reflexivity. Qed.

(** [chunk_text] on a text that needs more than one chunk, with a positive
    overlap below the chunk size: no amount of fuel brings it back. *)
Lemma chunk_text_no_return (self : Vectorizer) (raw : str) :
  0 < chunk_overlap self -> chunk_overlap self < chunk_size self ->
  chunk_size self < len (clean raw) ->
  forall fuel, chunk_text fuel self raw = None.
Proof.
  intros Hov Hvalid Hlong fuel. unfold chunk_text.
  destruct raw as [|c raw'].
  - rewrite clean_nil in Hlong. unfold len in Hlong. simpl in Hlong. lia.
  - cbv zeta.
    destruct (len (clean (c :: raw')) <=? chunk_size self) eqn:E.
    + apply Z.leb_le in E. lia.
    + apply while_loop_no_exit; [exact Hov|]. cbn [fst]. lia.
Qed.

(** A text whose cleaned form fits in one chunk. *)
Lemma chunk_text_short (self : Vectorizer) (raw : str) (fuel : nat) :
  raw <> [] -> len (clean raw) <= chunk_size self ->
  chunk_text fuel self raw = Some [clean raw].
Proof.
  intros Hne Hshort. unfold chunk_text. destruct raw; [contradiction|].
  cbv zeta. apply Z.leb_le in Hshort. now rewrite Hshort.
Qed.

Lemma chunk_text_empty (self : Vectorizer) (fuel : nat) :
  chunk_text fuel self [] = Some [].
Proof. reflexivity. Qed.

Lemma re_sub_ws_all_space (text : str) :
  forallb is_space text = true ->
  forall c, In c (re_sub_ws_from true text) -> False.
Proof.
  induction text as [|a rest IH]; intros Hall c Hin; simpl in *.
  - exact Hin.
  - apply andb_prop in Hall. destruct Hall as [Ha Hrest].
    rewrite Ha in Hin. eauto.
Qed.

(** Whitespace only: cleaning leaves the empty string. *)
Lemma clean_whitespace_only (text : str) :
  forallb is_space text = true -> clean text = [].
Proof.
  intros Hall. unfold clean, re_sub_ws.
  destruct text as [|a rest]; [reflexivity|].
  simpl in Hall. apply andb_prop in Hall. destruct Hall as [Ha Hrest].
  cbn [re_sub_ws_from]. rewrite Ha.
  destruct (re_sub_ws_from true rest) as [|c l] eqn:E.
  - reflexivity.
  - exfalso. apply (re_sub_ws_all_space rest Hrest c). rewrite E. now left.
Qed.

(* ------------------------------------------------------------------ *)
(** ** The paragraph-break search on cleaned text *)
(* ------------------------------------------------------------------ *)

Lemma rfind_occurrence_head (s : str) (a : char) (sub : str) :
  rfind s (a :: sub) <> -1 ->
  nth_error s (Z.to_nat (rfind s (a :: sub))) = Some a.
Proof.
  intros Hfound. destruct (rfind_spec s (a :: sub)) as [E|[_ Hs]].
  - contradiction.
  - rewrite <- hd_error_skipn.
    destruct (skipn (Z.to_nat (rfind s (a :: sub))) s) as [|b rest].
    + discriminate.
    + simpl in Hs. apply andb_prop in Hs. destruct Hs as [Hs _].
      apply N.eqb_eq in Hs. now subst.
Qed.

(** The two ways a pass over cleaned text can end: the paragraph search
    finds nothing, and the cut is at the size limit or just after a
    period. *)
Lemma cut_on_clean_text
  (self : Vectorizer) (raw : str) (start : Z) :
  let text := clean raw in
  let limit := size_limit self text start in
  let chunk := slice text start limit in
  rfind chunk PARA_BREAK = -1 /\
  (cut self text start = (chunk, limit) \/
   (limit < len text /\
    let sentence_break := rfind chunk SENTENCE_BREAK in
    chunk_size self / 2 < sentence_break /\
    nth_error chunk (Z.to_nat sentence_break) = Some PERIOD /\
    cut self text start =
      (slice chunk 0 (sentence_break + 1), start + sentence_break + 1))).
Proof.
  intros text limit chunk.
  assert (Hpara : rfind chunk PARA_BREAK = -1).
  { apply rfind_absent. intros Hin. apply slice_incl in Hin.
    exact (clean_no_newline raw Hin). }
  split; [exact Hpara|].
  rewrite cut_unfold. cbv zeta. fold text limit chunk.
  rewrite Hpara. cbn [Z.eqb negb andb].
  destruct (limit <? len text) eqn:Elim; [|now left].
  destruct (negb (rfind chunk SENTENCE_BREAK =? -1)
            && (rfind chunk SENTENCE_BREAK >? chunk_size self / 2)) eqn:Es;
    [right|now left].
  apply andb_prop in Es. destruct Es as [Es1 Es2].
  apply negb_true_iff, Z.eqb_neq in Es1.
  rewrite Z.gtb_ltb in Es2. apply Z.ltb_lt in Es2. apply Z.ltb_lt in Elim.
  repeat split; try assumption.
  exact (rfind_occurrence_head chunk PERIOD [SPACE] Es1).
Qed.

(** C6.  On the text that [chunk_text] hands to its loop (the cleaned
    text), for every cursor position: the search [chunk.rfind('\n\n')]
    answers [-1], so the paragraph branch is not taken, and the chunk and
    [end] produced by the pass are either the candidate chunk up to the
    [chunk_size] limit, or the candidate cut just after a period that
    [chunk.rfind('. ')] found beyond half the chunk size.  (The limit is
    [start + chunk_size], or the end of the text when that is nearer.) *)
Theorem paragraph_break_never_matches
  (self : Vectorizer) (raw : str) (start : Z) :
  let text := clean raw in
  let limit := size_limit self text start in
  let chunk := slice text start limit in
  rfind chunk PARA_BREAK = -1 /\
  (cut self text start = (chunk, limit) \/
   (limit < len text /\
    let sentence_break := rfind chunk SENTENCE_BREAK in
    chunk_size self / 2 < sentence_break /\
    nth_error chunk (Z.to_nat sentence_break) = Some PERIOD /\
    cut self text start =
      (slice chunk 0 (sentence_break + 1), start + sentence_break + 1))).
Proof. exact (cut_on_clean_text self raw start). Qed.

(* ------------------------------------------------------------------ *)
(** ** Overlap of consecutive chunks *)
(* ------------------------------------------------------------------ *)

Lemma all_junctions_snoc (k : Z) (b : str) : forall pre a,
  all_junctions k (pre ++ [a]) = true ->
  junction_ok k a b = true ->
  all_junctions k ((pre ++ [a]) ++ [b]) = true.
Proof.
  induction pre as [|x pre IH]; intros a Hall Hj.
  - simpl. now rewrite Hj.
  - destruct pre as [|y pre'].
    + simpl in *. apply andb_prop in Hall. destruct Hall as [H1 _].
      now rewrite H1, Hj.
    + change (all_junctions k (x :: (y :: pre') ++ [a]) = true) in Hall.
      cbn [all_junctions app] in Hall.
      apply andb_prop in Hall. destruct Hall as [H1 H2].
      change (all_junctions k (x :: ((y :: pre') ++ [a]) ++ [b]) = true).
      cbn [all_junctions app]. rewrite H1. cbn [andb].
      exact (IH a H2 Hj).
Qed.


Lemma lastn_slice (s : str) (lo hi k : Z) :
  0 <= lo -> 0 <= k -> lo + k <= hi -> hi <= len s ->
  lastn k (slice s lo hi) = slice s (hi - k) hi.
Proof.
  intros Hlo Hk Hkh Hhi. unfold lastn.
  rewrite (slice_split s lo (hi - k) hi) by lia.
  assert (Hlen : (List.length (slice s lo (hi - k) ++ slice s (hi - k) hi)
                  - Z.to_nat k = List.length (slice s lo (hi - k)))%nat).
  { rewrite length_app.
    pose proof (len_slice_in_range s (hi - k) hi ltac:(lia) ltac:(lia)) as H.
    unfold len in H. lia. }
  rewrite Hlen, skipn_app, skipn_all, Nat.sub_diag. reflexivity.
Qed.

Lemma junction_ok_slices (s : str) (lo hi hi' k : Z) :
  0 <= lo -> 0 <= k -> lo + k <= hi -> hi <= hi' -> hi' <= len s ->
  junction_ok k (slice s lo hi) (slice s (hi - k) hi') = true.
Proof.
  intros Hlo Hk Hkh Hhi Hhi'. unfold junction_ok.
  rewrite len_slice_in_range by lia.
  rewrite lastn_slice by lia.
  rewrite (slice_split s (hi - k) hi hi') by lia.
  rewrite starts_with_app.
  apply andb_true_intro. split; [apply Z.leb_le; lia|reflexivity].
Qed.

Section Overlap.

Variable self : Vectorizer.
Variable raw : str.

Hypothesis overlap_nonneg : 0 <= chunk_overlap self.
Hypothesis overlap_valid : chunk_overlap self < chunk_size self.
Hypothesis overlap_half : chunk_overlap self <= chunk_size self / 2 + 2.

(** One pass from a cursor inside the cleaned text: the chunk is
    [text[start:e]] for the new [end] [e], and it is at least
    [chunk_overlap] long. *)
Lemma cut_in_range (start : Z) :
  0 <= start < len (clean raw) ->
  start + chunk_overlap self <= len (clean raw) ->
  exists e, cut self (clean raw) start = (slice (clean raw) start e, e)
            /\ start + chunk_overlap self <= e <= len (clean raw).
Proof.
  intros Hstart Hroom.
  destruct (cut_on_clean_text self raw start)
    as [_ [Hcut|(Hlim & Hhalf & _ & Hcut)]].
  - exists (size_limit self (clean raw) start). split; [exact Hcut|].
    pose proof (size_limit_le self (clean raw) start) as Hle.
    split; [|exact Hle].
    unfold size_limit in *.
    destruct (start + chunk_size self >? len (clean raw)) eqn:E; [lia|].
    lia.
  - cbv zeta in Hhalf, Hcut.
    assert (Hdiv : 0 <= chunk_size self / 2) by (apply Z.div_pos; lia).
    assert (Hlimit : size_limit self (clean raw) start
                     = start + chunk_size self)
      by (apply size_limit_below; exact Hlim).
    pose proof (break_inside self (clean raw) start SENTENCE_BREAK) as Hin.
    destruct (rfind_spec
                (slice (clean raw) start (size_limit self (clean raw) start))
                SENTENCE_BREAK) as [E|[Hr _]]; [lia|].
    cbv zeta in Hin.
    rewrite Hlimit in *.
    remember (rfind (slice (clean raw) start (start + chunk_size self))
                SENTENCE_BREAK) as sb eqn:Hsbdef.
    assert (Hsub : len SENTENCE_BREAK = 2) by reflexivity.
    rewrite Hsub in *.
    specialize (Hin ltac:(lia) ltac:(lia)).
    rewrite len_slice_in_range in Hr by lia.
    exists (start + sb + 1). split.
    + rewrite Hcut. f_equal.
      rewrite slice_slice_prefix by lia. f_equal. lia.
    + lia.
Qed.

Lemma junction_inv_body (st : loop_state) :
  junction_inv self (clean raw) st -> fst st < len (clean raw) ->
  junction_inv self (clean raw) (loop_body self (clean raw) st).
Proof.
  intros (H0 & Hroom & Hall & Hlast) Hcond.
  destruct (cut_in_range (fst st) ltac:(lia) Hroom) as (e & Hcut & He).
  unfold loop_body. rewrite Hcut.
  unfold junction_inv. cbn [fst snd].
  split; [lia|]. split; [lia|]. split.
  - destruct Hlast as [Hnil|(pre & s & e0 & Hsnd & Hs & Hse & He0 & Hst)].
    + rewrite Hnil. reflexivity.
    + rewrite Hsnd in *. apply all_junctions_snoc; [exact Hall|].
      rewrite Hst. apply junction_ok_slices; lia.
  - right. exists (snd st), (fst st), e. repeat split; lia.
Qed.


Lemma junction_inv_while (fuel : nat) : forall st chunks,
  junction_inv self (clean raw) st -> while_loop fuel self (clean raw) st = Some chunks ->
  all_junctions (chunk_overlap self) chunks = true.
Proof.
  induction fuel as [|fuel IH]; intros st chunks Hinv Hrun;
    cbn [while_loop] in Hrun;
    destruct (fst st <? len (clean raw)) eqn:E.
  - discriminate.
  - injection Hrun as <-. apply Hinv.
  - apply (IH _ _ (junction_inv_body st Hinv ltac:(now apply Z.ltb_lt)) Hrun).
  - injection Hrun as <-. apply Hinv.
Qed.


End Overlap.

(* ================================================================== *)
(** * The chunker: termination, short texts, overlap, construction *)
(* ================================================================== *)

(** C1.  [chunk_size = 20], [chunk_overlap = 5] (so overlap < size) and the
    32-character text [AAAAAAAAAA BBBBBBBBBB CCCCCCCCCC].  The second pass
    emits the chunk that ends at the end of the text and leaves the cursor
    at [32 - 5 = 27]; the third pass starts at 27, emits [CCCCC] and leaves
    the cursor at 27 again: it has not moved beyond the previous cursor,
    the loop condition [27 < 32] still holds, and so on for ever.
    [chunk_text] does not return, whatever the fuel.  The same happens
    for every text longer than [chunk_size] once cleaned, with every
    configuration [0 < chunk_overlap < chunk_size]. *)
Theorem chunk_text_never_returns :
  let self := mkVectorizer 20 5 in
  let raw := lit "AAAAAAAAAA BBBBBBBBBB CCCCCCCCCC" in
  chunk_overlap self < chunk_size self /\
  len (clean raw) = 32 /\
  passes 2 self (clean raw) (0, [])
    = (27, [lit "AAAAAAAAAA BBBBBBBBB"; lit "BBBBBB CCCCCCCCCC"]) /\
  (forall chunks,
     loop_body self (clean raw) (27, chunks) = (27, chunks ++ [lit "CCCCC"])) /\
  (forall fuel, chunk_text fuel self raw = None) /\
  (forall (v : Vectorizer) (t : str),
     0 < chunk_overlap v -> chunk_overlap v < chunk_size v ->
     chunk_size v < len (clean t) ->
     forall fuel, chunk_text fuel v t = None).
Proof.
  intros self raw.
  split; [reflexivity|]. split; [reflexivity|].
  split; [vm_compute; reflexivity|].
  split; [|split].
  - intros chunks. unfold loop_body. cbn [fst snd].
    replace (cut self (clean raw) 27) with (lit "CCCCC", 32)
      by (vm_compute; reflexivity).
    reflexivity.
  - apply chunk_text_no_return.
    + vm_compute; reflexivity.
    + vm_compute; reflexivity.
    + vm_compute; reflexivity.
  - exact chunk_text_no_return.
Qed.

(** C4.  With the default configuration, the text made of three spaces is
    not empty, so the guard [if not text] lets it through; cleaning turns
    it into the empty string, whose length 0 is at most [chunk_size], and
    [chunk_text] returns one chunk, the empty string, where the empty
    text gives no chunk at all.  So does every non-empty text made of
    whitespace only, whenever [chunk_size] is not negative. *)
Theorem chunk_text_whitespace_only :
  let self := mkVectorizer default_chunk_size default_chunk_overlap in
  forall fuel,
    clean (lit "   ") = [] /\
    chunk_text fuel self (lit "   ") = Some [[]] /\
    chunk_text fuel self [] = Some [] /\
    (forall (v : Vectorizer) (t : str),
       t <> [] -> forallb is_space t = true -> 0 <= chunk_size v ->
       chunk_text fuel v t = Some [[]]).
Proof.
  intros self fuel.
  split; [reflexivity|]. split; [reflexivity|]. split; [reflexivity|].
  intros v t Hne Hws Hsize.
  pose proof (chunk_text_short v t fuel Hne) as Hshort.
  rewrite (clean_whitespace_only t Hws) in Hshort.
  apply Hshort. exact Hsize.
Qed.

(** What bounds the overlap among the chunks the loop emits.
    [chunk_size = 10] and [chunk_overlap = 8]: on a text with a sentence
    break at offset 6 the first chunk is cut just after the period and is
    [aaaaaa.], 7 characters, shorter than the overlap.  The cursor moves to
    [7 - 8 = -1], [text[-1:9]] is empty, and the second chunk emitted is
    the empty string, which does not begin with the tail of the first.
    The loop is still running then: nothing is returned. *)
Lemma emitted_chunks_beyond_half_size :
  let self := mkVectorizer 10 8 in
  let text := clean (lit "aaaaaa. bbbbbbbbbbbbbbbb") in
  snd (passes 2 self text (0, [])) = [lit "aaaaaa."; []] /\
  fst (passes 2 self text (0, [])) < len text /\
  all_junctions (chunk_overlap self) (snd (passes 2 self text (0, [])))
    = false.
Proof.
  repeat split.
Qed.




(** C7, as stated, fails: building a [Vectorizer] with
    [chunk_overlap = chunk_size = 10] raises nothing and returns the
    object. *)
Lemma init_accepts_invalid_configuration :
  10 >= 10 /\
  init 10 10 = Returned (mkVectorizer 10 10) /\
  (forall e, init 10 10 <> Raised e).
Proof.
  split; [lia|]. split; [reflexivity|].
  intros e H. discriminate H.
Qed.

(** C7, amended.  [Vectorizer.__init__] never fails: for every pair of
    integers, also with [chunk_overlap >= chunk_size], it returns a
    [Vectorizer] holding the two values as given, neither rejected nor
    clamped. *)
Theorem init_never_rejects (cs co : Z) :
  init cs co = Returned (mkVectorizer cs co) /\
  (forall self, init cs co = Returned self ->
                chunk_size self = cs /\ chunk_overlap self = co).
Proof.
  split; [reflexivity|].
  intros self H. injection H as <-. split; reflexivity.
Qed.

(* ================================================================== *)
(** * Facts about the document store *)
(* ================================================================== *)

Section MongoFacts.

Lemma str_eqb_refl (a : str) : str_eqb a a = true.
Proof. unfold str_eqb. destruct (list_eq_dec N.eq_dec a a); congruence. Qed.

Lemma str_eqb_eq (a b : str) : str_eqb a b = true -> a = b.
Proof.
  unfold str_eqb. destruct (list_eq_dec N.eq_dec a b); [auto|discriminate].
Qed.

Lemma value_eqb_VStr (v : value) (s : str) :
  value_eqb v (VStr s) = true -> v = VStr s.
Proof.
  destruct v; simpl; try discriminate.
  intros H. apply str_eqb_eq in H. now subst.
Qed.

Lemma matches_true (document_id : str) (doc : document) :
  matches document_id doc = true ->
  dict_get doc "document_id" = Some (VStr document_id).
Proof.
  unfold matches. destruct (dict_get doc "document_id"); [|discriminate].
  intros H. apply value_eqb_VStr in H. now subst.
Qed.

(** No stored document carries the id: [find_one] answers [None]. *)
Lemma find_one_unknown (coll : collection) (document_id : str) :
  (forall doc, In doc coll ->
               dict_get doc "document_id" <> Some (VStr document_id)) ->
  find_one coll document_id = None.
Proof.
  intros Hunknown. unfold find_one.
  destruct (find (matches document_id) coll) as [doc|] eqn:E;
    [|reflexivity].
  apply find_some in E. destruct E as [Hin Hm].
  apply matches_true in Hm. exfalso. exact (Hunknown doc Hin Hm).
Qed.

(** A write that the server refuses for every document fails as soon as
    one document passes the filter. *)
Lemma update_first_refused (p : document -> bool)
  (f : document -> option document) (coll : collection) (doc : document) :
  (forall d, f d = None) -> find p coll = Some doc ->
  update_first p f coll = Raised WriteError.
Proof.
  intros Hf. induction coll as [|d rest IH]; intros Hfind; simpl in *.
  - discriminate.
  - destruct (p d).
    + now rewrite Hf.
    + now rewrite (IH Hfind).
Qed.

Lemma dict_get_set (d : dict) (key key' : string) (v : value) :
  dict_get (dict_set d key v) key' =
  if String.eqb key key' then Some v else dict_get d key'.
Proof.
  induction d as [|[k w] rest IH]; simpl.
  - reflexivity.
  - destruct (String.eqb k key) eqn:Ek; simpl.
    + apply String.eqb_eq in Ek. subst k.
      destruct (String.eqb key key'); reflexivity.
    + rewrite IH. destruct (String.eqb k key') eqn:Ek'; [|reflexivity].
      apply String.eqb_eq in Ek'. subst k. now rewrite String.eqb_sym, Ek.
Qed.

Lemma dict_get_absent (d : dict) (key : string) :
  ~ In key (map fst d) -> dict_get d key = None.
Proof.
  induction d as [|[k w] rest IH]; simpl; intros Hnot; [reflexivity|].
  destruct (String.eqb k key) eqn:Ek.
  - apply String.eqb_eq in Ek. tauto.
  - apply IH. tauto.
Qed.

(** [{**a, **b}] read key by key: the value of [b] where [b] has the
    key, the value of [a] elsewhere. *)
Lemma dict_get_merge (b : dict) : forall (a : dict) (key : string),
  NoDup (map fst b) ->
  dict_get (dict_merge a b) key =
  match dict_get b key with
  | Some v => Some v
  | None => dict_get a key
  end.
Proof.
  induction b as [|[k v] rest IH]; intros a key Hnd; [reflexivity|].
  simpl in Hnd. inversion Hnd as [|? ? Hnotin Hnd']; subst.
  change (dict_merge a ((k, v) :: rest))
    with (dict_merge (dict_set a k v) rest).
  rewrite (IH _ _ Hnd'), dict_get_set. simpl.
  destruct (String.eqb k key) eqn:Ek.
  - apply String.eqb_eq in Ek. subst key.
    now rewrite (dict_get_absent rest k Hnotin).
  - reflexivity.
Qed.

End MongoFacts.

(** The update document that [update_document] builds always carries the
    field name [$push] inside the argument of [$set]; the server refuses
    it, with or without a metadata entry. *)
Lemma update_data_refused (c u h : value) (doc : document) :
  apply_set [("content", c); ("updated_at", u); ("$push", h)]%string doc
    = None /\
  forall m,
    apply_set
      (dict_set [("content", c); ("updated_at", u); ("$push", h)]%string
         "metadata" m) doc = None.
Proof. split; reflexivity. Qed.

(** [update_document] never changes the collection and never returns
    [True]: without a matching document it returns [False], with one it
    raises. *)
Lemma build_update_data_refused (cur_content cur_metadata : value)
  (now1 now2 : Z) (content : str) (metadata : option dict)
  (update_data : dict) :
  build_update_data cur_content cur_metadata now1 now2 content metadata
    = Returned update_data ->
  forall d, apply_set update_data d = None.
Proof.
  unfold build_update_data. intros H d.
  destruct metadata as [[|kv patch]|].
  - injection H as <-. apply update_data_refused.
  - destruct cur_metadata; try discriminate H.
    injection H as <-. apply update_data_refused.
  - injection H as <-. apply update_data_refused.
Qed.

Lemma update_document_no_effect (coll : collection) (now1 now2 : Z)
  (document_id content : str) (metadata : option dict) :
  fst (update_document coll now1 now2 document_id content metadata) = coll /\
  snd (update_document coll now1 now2 document_id content metadata)
    <> Returned true.
Proof.
  unfold update_document.
  destruct (find_one coll document_id) as [current_doc|] eqn:Efind.
  2: { split; [reflexivity|discriminate]. }
  destruct (dict_get current_doc "content") as [cur_content|];
    [|split; [reflexivity|discriminate]].
  destruct (dict_get current_doc "metadata") as [cur_metadata|];
    [|split; [reflexivity|discriminate]].
  destruct (build_update_data cur_content cur_metadata now1 now2 content
              metadata) as [update_data|e] eqn:Ebuild;
    [|split; [reflexivity|discriminate]].
  unfold update_one_set.
  rewrite (update_first_refused _ _ coll current_doc
             (build_update_data_refused _ _ _ _ _ _ _ Ebuild) Efind).
  split; [reflexivity|discriminate].
Qed.

(* ================================================================== *)
(** * [update_document]: version history, metadata, unknown ids *)
(* ================================================================== *)

(** C2.  A stored document with content [C1] and an empty version
    history, updated to [C2].  The update handed to [update_one] is
    [{"$set": {"content": .., "updated_at": .., "$push": {..}}}]: the
    [$push] sits inside [$set], where it is a field name and not an
    operator; the write is refused, [update_document] ends with
    [WriteError], and the stored document is as before, with content [C1]
    and no version entry.  More generally no call of [update_document]
    returns [True] or changes the collection, so no version entry is ever
    appended.  (Assigning a field under any name other than
    [version_history], [$push] included, would not touch the history
    either.) *)
Theorem update_appends_no_version_entry :
  let doc := [("document_id", VStr (lit "d1"));
              ("content", VStr (lit "C1"));
              ("metadata", VDict []);
              ("version_history", VList [])]%string in
  update_document [doc] 1 2 (lit "d1") (lit "C2") None
    = ([doc], Raised WriteError) /\
  version_history doc = [] /\
  (forall coll now1 now2 document_id content metadata,
     fst (update_document coll now1 now2 document_id content metadata) = coll
     /\ snd (update_document coll now1 now2 document_id content metadata)
        <> Returned true) /\
  (forall (d : document) (name : string) (v : value),
     name <> "version_history"%string ->
     version_history (dict_set d name v) = version_history d).
Proof.
  intros doc. split; [reflexivity|]. split; [reflexivity|]. split.
  - intros. apply update_document_no_effect.
  - intros d name v Hname. unfold version_history.
    rewrite dict_get_set.
    destruct (String.eqb name "version_history") eqn:E; [|reflexivity].
    apply String.eqb_eq in E. contradiction.
Qed.

(** C8.  The example of the claim: current metadata
    [{"k": "old", "j": 1}], patch [{"k": "v"}], new content [X].  The
    dictionary the code builds for [$set] holds, under [metadata], the
    merge [{"k": "v", "j": 1}], and next to it the misplaced [$push].
    The write is refused: the call ends with [WriteError] and the stored
    metadata is still [{"k": "old", "j": 1}].  The same assignments
    without the [$push] entry would have stored the merge.  (For every
    stored dictionary and every non-empty patch the entry built is the
    shallow merge, patch values first.) *)
Theorem update_metadata_patch_not_stored :
  let current := [("k", VStr (lit "old")); ("j", VInt 1)]%string in
  let patch := [("k", VStr (lit "v"))]%string in
  let merged := [("k", VStr (lit "v")); ("j", VInt 1)]%string in
  let doc := [("document_id", VStr (lit "d1"));
              ("content", VStr (lit "C1"));
              ("metadata", VDict current);
              ("version_history", VList [])]%string in
  let pushed :=
    VDict [("version_history",
            VDict [("content", VStr (lit "C1"));
                   ("metadata", VDict current);
                   ("timestamp", VTime 1)])]%string in
  build_update_data (VStr (lit "C1")) (VDict current) 1 2 (lit "X")
    (Some patch)
    = Returned [("content", VStr (lit "X"));
                ("updated_at", VTime 2);
                ("$push", pushed);
                ("metadata", VDict merged)]%string /\
  update_document [doc] 1 2 (lit "d1") (lit "X") (Some patch)
    = ([doc], Raised WriteError) /\
  (forall doc',
     find_one
       (fst (update_document [doc] 1 2 (lit "d1") (lit "X") (Some patch)))
       (lit "d1") = Some doc' ->
     dict_get doc' "metadata" = Some (VDict current)) /\
  (exists doc',
     apply_set [("content", VStr (lit "X"));
                ("updated_at", VTime 2);
                ("metadata", VDict merged)]%string doc = Some doc' /\
     dict_get doc' "metadata" = Some (VDict merged)) /\
  (forall (cur_content : value) (cur : dict) (now1 now2 : Z) (content : str)
          (kv : string * value) (rest : dict),
     exists update_data,
       build_update_data cur_content (VDict cur) now1 now2 content
         (Some (kv :: rest)) = Returned update_data /\
       dict_get update_data "metadata"
         = Some (VDict (dict_merge cur (kv :: rest)))) /\
  (forall (a b : dict) (key : string),
     NoDup (map fst b) ->
     dict_get (dict_merge a b) key =
     match dict_get b key with
     | Some v => Some v
     | None => dict_get a key
     end).
Proof.
  intros current patch merged doc pushed.
  split; [reflexivity|]. split; [reflexivity|]. split; [|split; [|split]].
  - intros doc' H. vm_compute in H. injection H as <-. reflexivity.
  - eexists. split; reflexivity.
  - intros cur_content cur now1 now2 content kv rest.
    eexists. split; [reflexivity|]. reflexivity.
  - intros a b key Hnd. now apply dict_get_merge.
Qed.

(** C10.  When no stored document carries [document_id],
    [update_document] returns [False] and the collection is the one it was
    given: no document's content, metadata, [updated_at] or version
    history has changed. *)
Theorem update_unknown_document (coll : collection) (now1 now2 : Z)
  (document_id content : str) (metadata : option dict) :
  (forall doc, In doc coll ->
               dict_get doc "document_id" <> Some (VStr document_id)) ->
  update_document coll now1 now2 document_id content metadata
    = (coll, Returned false).
Proof.
  intros Hunknown. unfold update_document.
  now rewrite (find_one_unknown coll document_id Hunknown).
Qed.

Lemma update_unknown_document_witness :
  let doc := [("document_id", VStr (lit "d1"));
              ("content", VStr (lit "C1"));
              ("metadata", VDict [("j", VInt 1)]);
              ("version_history", VList [])]%string in
  update_document [doc] 1 2 (lit "d2") (lit "X")
    (Some [("k", VStr (lit "v"))]%string)
    = ([doc], Returned false).
Proof.
  intros doc.
  apply (update_unknown_document [doc] 1 2 (lit "d2") (lit "X")).
  intros d [<-|[]]. vm_compute. discriminate.
Defined.

(* ================================================================== *)
(** * Facts about the chunk table *)
(* ================================================================== *)

Section TableFacts.

Variable document_id : str.

Lemma add_chunks_fold (l : list (nat * str)) : forall acc,
  fold_left
    (fun (acc : table * list str) (ic : nat * str) =>
       let chunk_id := make_chunk_id document_id (fst ic) in
       (fst acc
          ++ [DocumentEmbedding.mk document_id chunk_id (snd ic) None],
        snd acc ++ [chunk_id]))
    l acc
  = (fst acc ++ map (fun ic : nat * str =>
     DocumentEmbedding.mk document_id
       (make_chunk_id document_id (fst ic)) (snd ic) None) l,
     snd acc ++ map (fun ic => make_chunk_id document_id (fst ic)) l).
Proof.
  induction l as [|ic l IH]; intros [rows ids]; cbn [fold_left map fst snd].
  - now rewrite !app_nil_r.
  - rewrite IH. cbn [fst snd]. now rewrite <- !app_assoc.
Qed.

Lemma add_chunks_spec (chunks : list str) :
  add_chunks document_id chunks
  = (map (fun ic : nat * str =>
     DocumentEmbedding.mk document_id
       (make_chunk_id document_id (fst ic)) (snd ic) None) (enumerate chunks),
     map (fun ic => make_chunk_id document_id (fst ic)) (enumerate chunks)).
Proof. unfold add_chunks. now rewrite add_chunks_fold. Qed.

Lemma enumerate_from_indices {A : Type} (l : list A) : forall i,
  map fst (enumerate_from i l) = seq i (List.length l).
Proof.
  induction l as [|x l IH]; intros i; simpl; [reflexivity|].
  now rewrite IH.
Qed.

Lemma enumerate_from_length {A : Type} (l : list A) (i : nat) :
  List.length (enumerate_from i l) = List.length l.
Proof.
  rewrite <- (length_map fst), enumerate_from_indices. apply length_seq.
Qed.

Lemma filter_own_rows (l : list (nat * str)) :
  filter (fun chunk =>
            str_eqb (DocumentEmbedding.document_id chunk) document_id)
         (map (fun ic : nat * str =>
     DocumentEmbedding.mk document_id
       (make_chunk_id document_id (fst ic)) (snd ic) None) l)
  = map (fun ic : nat * str =>
     DocumentEmbedding.mk document_id
       (make_chunk_id document_id (fst ic)) (snd ic) None) l.
Proof.
  induction l as [|ic l IH]; simpl; [reflexivity|].
  now rewrite str_eqb_refl, IH.
Qed.

End TableFacts.

Lemma set_first_embedding_none (chunk_id e : str) (db : table) :
  set_first_embedding chunk_id e db = None <->
  (forall r, In r db -> DocumentEmbedding.chunk_id r <> chunk_id).
Proof.
  induction db as [|chunk rest IH]; simpl.
  - split; [intros _ r []|reflexivity].
  - destruct (str_eqb (DocumentEmbedding.chunk_id chunk) chunk_id) eqn:E.
    + apply str_eqb_eq in E. split; [discriminate|].
      intros H. exfalso. apply (H chunk); [now left|exact E].
    + destruct (set_first_embedding chunk_id e rest) as [db'|]; simpl.
      * split; [discriminate|]. intros H.
        assert (Hnone : Some db' = None)
          by (apply IH; intros r Hr; apply H; now right).
        discriminate Hnone.
      * split; [|reflexivity]. intros _ r [<-|Hr].
        -- intros Heq. rewrite Heq, str_eqb_refl in E. discriminate.
        -- destruct IH as [IH _]. now apply IH.
Qed.

Lemma set_first_embedding_some (chunk_id e : str) (db : table) :
  forall db', set_first_embedding chunk_id e db = Some db' ->
  exists before r after,
    db = before ++ r :: after /\
    DocumentEmbedding.chunk_id r = chunk_id /\
    (forall r0, In r0 before -> DocumentEmbedding.chunk_id r0 <> chunk_id) /\
    db' = before ++ DocumentEmbedding.set_embedding r (Some e) :: after.
Proof.
  induction db as [|chunk rest IH]; simpl; intros db' H.
  - discriminate.
  - destruct (str_eqb (DocumentEmbedding.chunk_id chunk) chunk_id) eqn:E.
    + injection H as <-. apply str_eqb_eq in E.
      exists [], chunk, rest.
      split; [reflexivity|]. split; [exact E|]. split; [|reflexivity].
      intros r0 Hr0. destruct Hr0.
    + destruct (set_first_embedding chunk_id e rest) as [rest'|];
        [|discriminate].
      injection H as <-.
      destruct (IH rest' eq_refl) as (before & r & after & -> & Hr & Hb & ->).
      exists (chunk :: before), r, after.
      split; [reflexivity|]. split; [exact Hr|]. split; [|reflexivity].
      intros r0 [<-|Hr0]; [|now apply Hb].
      intros Heq. rewrite Heq, str_eqb_refl in E. discriminate.
Qed.

(* ================================================================== *)
(** * [vectorize_document], [get_document_chunks], [update_embedding] *)
(* ================================================================== *)

Lemma enumerate_from_values {A : Type} (l : list A) : forall i,
  map snd (enumerate_from i l) = l.
Proof.
  induction l as [|x l IH]; intros i; simpl; [reflexivity|].
  now rewrite IH.
Qed.

(** A commit that goes through stores the pending rows after the others,
    and would go through on any table. *)
Lemma commit_rows_returned (pg : Postgres) (document_id : str)
  (pending db db' : table) :
  commit_rows pg document_id pending db = Returned db' ->
  db' = db ++ pending /\
  (forall db0, commit_rows pg document_id pending db0
               = Returned (db0 ++ pending)).
Proof.
  unfold commit_rows. destruct pending as [|r pending].
  - intros H. injection H as <-.
    split; [now rewrite app_nil_r|].
    intros db0. now rewrite app_nil_r.
  - destruct (negb (is_uuid pg document_id)); [discriminate|].
    destruct (negb (has_metadata pg document_id)); [discriminate|].
    intros H. injection H as <-. split; reflexivity.
Qed.

(** What a call of [vectorize_document] that returns chunk ids has done:
    it has chunked the stored content (no chunk when the document is
    unknown) and stored one row per chunk. *)
Lemma vectorize_document_returned (fuel : nat) (self : Vectorizer)
  (pg : Postgres) (coll : collection) (document_id : str) (db db1 : table)
  (chunk_ids : list str) :
  vectorize_document fuel self pg coll document_id db
    = Some (db1, Returned chunk_ids) ->
  exists chunks : list str,
    (find_one coll document_id = None /\ chunks = [] \/
     exists doc, find_one coll document_id = Some doc /\
                 chunk_content fuel self (content_of doc)
                 = Some (Returned chunks)) /\
    db1 = db ++ map (fun ic : nat * str =>
                       DocumentEmbedding.mk document_id
                         (make_chunk_id document_id (fst ic)) (snd ic) None)
                    (enumerate chunks) /\
    chunk_ids = map (fun ic : nat * str => make_chunk_id document_id (fst ic))
                    (enumerate chunks) /\
    (forall db0,
       vectorize_document fuel self pg coll document_id db0
       = Some (db0 ++ map (fun ic : nat * str =>
                             DocumentEmbedding.mk document_id
                               (make_chunk_id document_id (fst ic))
                               (snd ic) None)
                          (enumerate chunks),
               Returned chunk_ids)).
Proof.
  unfold vectorize_document.
  destruct (find_one coll document_id) as [doc|].
  - destruct (chunk_content fuel self (content_of doc)) as [[chunks|e]|]
      eqn:Echunks; try discriminate.
    rewrite add_chunks_spec.
    destruct (commit_rows pg document_id _ db) as [db'|e] eqn:Ec;
      [|discriminate].
    intros H. injection H as <- <-.
    destruct (commit_rows_returned _ _ _ _ _ Ec) as [-> Hany].
    exists chunks. split; [right; exists doc; now split|].
    split; [reflexivity|]. split; [reflexivity|].
    intros db0. now rewrite Hany.
  - intros H. injection H as <- <-. exists [].
    split; [now left|]. cbn [enumerate enumerate_from map].
    split; [now rewrite app_nil_r|]. split; [reflexivity|].
    intros db0. now rewrite app_nil_r.
Qed.

(** C3, as stated, fails.  A stored document whose id is a UUID with a
    metadata row, content [hello], and an empty table: the first call
    stores one row and returns the id of chunk 0; the second call returns
    the same id and stores a second row with it, and
    [get_document_chunks] lists two records: in no order is that the one
    chunk set of the last call. *)
Lemma vectorize_twice_accumulates :
  let self := mkVectorizer default_chunk_size default_chunk_overlap in
  let id := lit "123e4567-e89b-12d3-a456-426614174000" in
  let pg := mkPostgres canonical_uuid (fun s => str_eqb s id) in
  let coll := [[("document_id", VStr id);
                ("content", VStr (lit "hello"))]%string] in
  let chunk_id := lit "123e4567-e89b-12d3-a456-426614174000-chunk-0" in
  let row := DocumentEmbedding.mk id chunk_id (lit "hello") None in
  is_uuid pg id = true /\ has_metadata pg id = true /\
  vectorize_document 0 self pg coll id []
    = Some ([row], Returned [chunk_id]) /\
  vectorize_document 0 self pg coll id [row]
    = Some ([row; row], Returned [chunk_id]) /\
  get_document_chunks id [row; row]
    = [chunk_info_of row; chunk_info_of row] /\
  ~ Permutation (get_document_chunks id [row; row]) [chunk_info_of row].
Proof.
  intros self id pg coll chunk_id row.
  split; [reflexivity|]. split; [reflexivity|].
  split; [vm_compute; reflexivity|]. split; [vm_compute; reflexivity|].
  split; [vm_compute; reflexivity|].
  intros Hperm. apply Permutation_length in Hperm.
  vm_compute in Hperm. discriminate Hperm.
Qed.

(** C3, amended.  [vectorize_document] only adds rows.  When a call
    returns chunk ids, it has chunked the stored content (no chunk for an
    unknown document) and the table afterwards holds the rows from before
    and one new row per chunk, carrying the document id, the id
    [{document_id}-chunk-{i}], the chunk's text and no embedding.  A
    second call in succession on the unchanged collection returns the
    same ordered ids and adds the same rows once more, so that
    [get_document_chunks] then lists, in an order the code does not fix,
    what it listed before the first call and the chunk set twice. *)
Theorem vectorize_appends_rows (fuel : nat) (self : Vectorizer)
  (pg : Postgres) (coll : collection) (document_id : str) (db db1 : table)
  (chunk_ids : list str) :
  vectorize_document fuel self pg coll document_id db
    = Some (db1, Returned chunk_ids) ->
  exists (chunks : list str) (new : table),
    (find_one coll document_id = None /\ chunks = [] \/
     exists doc, find_one coll document_id = Some doc /\
                 chunk_content fuel self (content_of doc)
                 = Some (Returned chunks)) /\
    map DocumentEmbedding.chunk_text new = chunks /\
    map DocumentEmbedding.chunk_id new = chunk_ids /\
    chunk_ids
      = map (make_chunk_id document_id) (seq 0 (List.length chunks)) /\
    Forall (fun r => DocumentEmbedding.document_id r = document_id
                     /\ DocumentEmbedding.embedding r = None) new /\
    Permutation db1 (db ++ new) /\
    Permutation (get_document_chunks document_id db1)
      (get_document_chunks document_id db ++ map chunk_info_of new) /\
    exists db2,
      vectorize_document fuel self pg coll document_id db1
        = Some (db2, Returned chunk_ids) /\
      Permutation db2 (db ++ new ++ new) /\
      Permutation (get_document_chunks document_id db2)
        (get_document_chunks document_id db
           ++ map chunk_info_of new ++ map chunk_info_of new).
Proof.
  intros H.
  destruct (vectorize_document_returned _ _ _ _ _ _ _ _ H)
    as (chunks & Hchunks & -> & -> & Hagain).
  set (new := map (fun ic : nat * str =>
                     DocumentEmbedding.mk document_id
                       (make_chunk_id document_id (fst ic)) (snd ic) None)
                  (enumerate chunks)).
  assert (Hfilter : forall t,
             get_document_chunks document_id (t ++ new)
             = get_document_chunks document_id t ++ map chunk_info_of new).
  { intros t. unfold get_document_chunks. rewrite filter_app, map_app.
    unfold new. now rewrite filter_own_rows. }
  exists chunks, new.
  split; [exact Hchunks|]. split.
  { unfold new. rewrite map_map. cbn [DocumentEmbedding.chunk_text].
    apply enumerate_from_values. }
  split.
  { unfold new. now rewrite map_map. }
  split.
  { rewrite <- (map_map fst (make_chunk_id document_id)).
    unfold enumerate. now rewrite enumerate_from_indices. }
  split.
  { unfold new. apply Forall_forall. intros r Hr.
    apply in_map_iff in Hr. destruct Hr as (ic & <- & _). now split. }
  split; [apply Permutation_refl|].
  split; [rewrite Hfilter; apply Permutation_refl|].
  exists ((db ++ new) ++ new). split; [apply Hagain|].
  split.
  - rewrite <- app_assoc. apply Permutation_refl.
  - rewrite !Hfilter, <- app_assoc. apply Permutation_refl.
Qed.

Lemma vectorize_appends_rows_witness :
  let self := mkVectorizer 10 0 in
  let id := lit "123e4567-e89b-12d3-a456-426614174000" in
  let pg := mkPostgres canonical_uuid (fun s => str_eqb s id) in
  let coll := [[("document_id", VStr id);
                ("content", VStr (lit "hello world, again"))]%string] in
  let old := DocumentEmbedding.mk (lit "00000000-0000-0000-0000-000000000000")
               (lit "00000000-0000-0000-0000-000000000000-chunk-0")
               (lit "other") None in
  let ids := [lit "123e4567-e89b-12d3-a456-426614174000-chunk-0";
              lit "123e4567-e89b-12d3-a456-426614174000-chunk-1"] in
  let db1 := [old;
              DocumentEmbedding.mk id
                (lit "123e4567-e89b-12d3-a456-426614174000-chunk-0")
                (lit "hello worl") None;
              DocumentEmbedding.mk id
                (lit "123e4567-e89b-12d3-a456-426614174000-chunk-1")
                (lit "d, again") None] in
  exists (chunks : list str) (new : table),
    (find_one coll id = None /\ chunks = [] \/
     exists doc, find_one coll id = Some doc /\
                 chunk_content 9 self (content_of doc)
                 = Some (Returned chunks)) /\
    map DocumentEmbedding.chunk_text new = chunks /\
    map DocumentEmbedding.chunk_id new = ids /\
    ids = map (make_chunk_id id) (seq 0 (List.length chunks)) /\
    Forall (fun r => DocumentEmbedding.document_id r = id
                     /\ DocumentEmbedding.embedding r = None) new /\
    Permutation db1 ([old] ++ new) /\
    Permutation (get_document_chunks id db1)
      (get_document_chunks id [old] ++ map chunk_info_of new) /\
    exists db2,
      vectorize_document 9 self pg coll id db1 = Some (db2, Returned ids) /\
      Permutation db2 ([old] ++ new ++ new) /\
      Permutation (get_document_chunks id db2)
        (get_document_chunks id [old]
           ++ map chunk_info_of new ++ map chunk_info_of new).
Proof.
  intros self id pg coll old ids db1.
  apply (vectorize_appends_rows 9 self pg coll id [old] db1 ids).
  vm_compute. reflexivity.
Defined.

(** C9.  [update_embedding] returns [False] exactly when no row of the
    table has the chunk id, and then the table is unchanged.  When it
    returns [True], the table differs from the old one in one row only,
    the first with that chunk id, and that row keeps its [chunk_id],
    [chunk_text] and [document_id] and holds the new embedding. *)
Theorem update_embedding_frame {F : Type} (py_str : list F -> str)
  (chunk_id : str) (embedding : list F) (db : table) :
  let db' := fst (update_embedding py_str chunk_id embedding db) in
  let ok := snd (update_embedding py_str chunk_id embedding db) in
  (ok = false <->
   (forall r, In r db -> DocumentEmbedding.chunk_id r <> chunk_id)) /\
  (ok = false -> db' = db) /\
  (ok = true ->
   exists before r r' after,
     db = before ++ r :: after /\
     db' = before ++ r' :: after /\
     (forall r0, In r0 before -> DocumentEmbedding.chunk_id r0 <> chunk_id) /\
     DocumentEmbedding.chunk_id r = chunk_id /\
     DocumentEmbedding.chunk_id r' = DocumentEmbedding.chunk_id r /\
     DocumentEmbedding.chunk_text r' = DocumentEmbedding.chunk_text r /\
     DocumentEmbedding.document_id r' = DocumentEmbedding.document_id r /\
     DocumentEmbedding.embedding r' = Some (py_str embedding)).
Proof.
  unfold update_embedding.
  pose proof (set_first_embedding_none chunk_id (py_str embedding) db)
    as Hnone.
  pose proof (set_first_embedding_some chunk_id (py_str embedding) db)
    as Hsome.
  destruct (set_first_embedding chunk_id (py_str embedding) db)
    as [db1|]; cbn [fst snd].
  - split; [|split].
    + split; [discriminate|]. intros H. apply Hnone in H. discriminate H.
    + discriminate.
    + intros _.
      destruct (Hsome db1 eq_refl) as (before & r & after & Hdb & Hr & Hb & Hdb1).
      exists before, r,
        (DocumentEmbedding.set_embedding r (Some (py_str embedding))), after.
      repeat split; assumption.
  - split; [|split].
    + split; [intros _; now apply Hnone|reflexivity].
    + reflexivity.
    + discriminate.
Qed.

(* ================================================================== *)
(** * More about cleaning *)
(* ================================================================== *)

Lemma is_space_SPACE : is_space SPACE = true.
Proof. reflexivity. Qed.

Lemma rstrip_snoc (s : str) (c : char) :
  rstrip (s ++ [c]) = if is_space c then rstrip s else s ++ [c].
Proof.
  unfold rstrip. rewrite rev_app_distr. cbn [rev app lstrip].
  destruct (is_space c); [reflexivity|].
  cbn [rev]. now rewrite rev_involutive.
Qed.

Lemma re_sub_ws_single_spaced (text : str) : forall in_run,
  single_spaced_from (negb in_run) (re_sub_ws_from in_run text) = true.
Proof.
  induction text as [|c rest IH]; intros in_run; cbn [re_sub_ws_from].
  - reflexivity.
  - destruct (is_space c) eqn:Ec.
    + destruct in_run.
      * exact (IH true).
      * cbn [single_spaced_from negb]. rewrite is_space_SPACE.
        rewrite N.eqb_refl. exact (IH true).
    + cbn [single_spaced_from]. rewrite Ec. exact (IH false).
Qed.

Lemma lstrip_single_spaced (s : str) : forall a,
  single_spaced_from a s = true -> single_spaced_from false (lstrip s) = true.
Proof.
  induction s as [|c rest IH]; intros a H; cbn [lstrip].
  - reflexivity.
  - cbn [single_spaced_from] in H. destruct (is_space c) eqn:Ec.
    + apply andb_prop in H. destruct H as [_ H]. exact (IH false H).
    + cbn [single_spaced_from]. now rewrite Ec.
Qed.

Lemma single_spaced_prefix (s : str) (c : char) : forall a,
  single_spaced_from a (s ++ [c]) = true -> single_spaced_from a s = true.
Proof.
  induction s as [|x rest IH]; intros a H; [reflexivity|].
  cbn [app single_spaced_from] in *. destruct (is_space x).
  - apply andb_prop in H. destruct H as [H1 H2].
    rewrite H1. exact (IH false H2).
  - exact (IH true H).
Qed.

Lemma single_spaced_tidy (s : str) (c : char) : forall a,
  single_spaced_from a (s ++ [c]) = true -> is_space c = false ->
  tidy_from a (s ++ [c]) = true.
Proof.
  induction s as [|x rest IH]; intros a H Hc.
  - cbn [app tidy_from]. now rewrite Hc.
  - cbn [app single_spaced_from tidy_from] in *. destruct (is_space x).
    + apply andb_prop in H. destruct H as [H1 H2].
      rewrite H1. exact (IH false H2 Hc).
    + exact (IH true H Hc).
Qed.

Lemma rstrip_tidy (s : str) :
  single_spaced_from false s = true -> tidy (rstrip s) = true.
Proof.
  induction s as [|c s IH] using rev_ind; intros H.
  - reflexivity.
  - rewrite rstrip_snoc. destruct (is_space c) eqn:Ec.
    + apply IH. exact (single_spaced_prefix s c false H).
    + pose proof (single_spaced_tidy s c false H Ec) as Ht.
      unfold tidy. destruct (s ++ [c]); [reflexivity|exact Ht].
Qed.

Lemma clean_tidy (text : str) : tidy (clean text) = true.
Proof.
  unfold clean, strip. apply rstrip_tidy.
  apply (lstrip_single_spaced _ true).
  exact (re_sub_ws_single_spaced text false).
Qed.

(** Cleaning leaves a tidy string as it is. *)
Lemma re_sub_ws_tidy (s : str) : forall a in_run,
  tidy_from a s = true -> (a = true -> in_run = false) ->
  re_sub_ws_from in_run s = s.
Proof.
  induction s as [|c rest IH]; intros a in_run H Hflag; [reflexivity|].
  cbn [tidy_from re_sub_ws_from] in *. destruct (is_space c) eqn:Ec.
  - apply andb_prop in H. destruct H as [H1 H2].
    apply andb_prop in H1. destruct H1 as [Hc Ha].
    apply N.eqb_eq in Hc. rewrite (Hflag Ha).
    rewrite (IH false true H2) by discriminate. now subst c.
  - now rewrite (IH true false H).
Qed.

Lemma tidy_from_last (s : str) : forall a,
  tidy_from a s = true ->
  s = [] \/ exists s' c, s = s' ++ [c] /\ is_space c = false.
Proof.
  induction s as [|x rest IH]; intros a H; [now left|right].
  cbn [tidy_from] in H. destruct (is_space x) eqn:Ex.
  - apply andb_prop in H. destruct H as [_ H].
    destruct (IH false H) as [->|(s' & c & -> & Hc)].
    + discriminate H.
    + exists (x :: s'), c. now split.
  - destruct (IH true H) as [->|(s' & c & -> & Hc)].
    + exists [], x. now split.
    + exists (x :: s'), c. now split.
Qed.

Lemma clean_of_tidy (s : str) : tidy s = true -> clean s = s.
Proof.
  intros H. destruct s as [|x rest]; [reflexivity|].
  unfold tidy in H. unfold clean, re_sub_ws.
  rewrite (re_sub_ws_tidy (x :: rest) false false H) by discriminate.
  assert (Hx : is_space x = false).
  { cbn [tidy_from] in H. destruct (is_space x); [|reflexivity].
    rewrite andb_false_r in H. discriminate H. }
  unfold strip. cbn [lstrip]. rewrite Hx.
  destruct (tidy_from_last (x :: rest) false H)
    as [E|(s' & c & E & Hc)]; [discriminate E|].
  rewrite E, rstrip_snoc, Hc. reflexivity.
Qed.

(** X1.  What [chunk_text] works on after its cleaning step: every
    whitespace character of the cleaned text is a plain space, no two of
    them are adjacent, and the text neither begins nor ends with one. *)
Theorem clean_is_tidy (text : str) :
  tidy (clean text) = true /\
  (forall c, In c (clean text) -> is_space c = true -> c = SPACE).
Proof.
  split; [apply clean_tidy|].
  intros c Hin Hc. destruct (clean_chars text c Hin) as [E|E]; [exact E|].
  rewrite E in Hc. discriminate Hc.
Qed.

(** X2.  Cleaning twice is cleaning once. *)
Theorem clean_idempotent (text : str) : clean (clean text) = clean text.
Proof. apply clean_of_tidy, clean_tidy. Qed.

Lemma re_sub_ws_non_space (text : str) : forall in_run,
  non_space_chars (re_sub_ws_from in_run text) = non_space_chars text.
Proof.
  induction text as [|c rest IH]; intros in_run; [reflexivity|].
  unfold non_space_chars in *. cbn [re_sub_ws_from filter].
  destruct (is_space c) eqn:Ec; cbn [negb].
  - destruct in_run; [apply IH|].
    cbn [filter]. rewrite is_space_SPACE. cbn [negb]. apply IH.
  - cbn [filter]. rewrite Ec. cbn [negb]. now rewrite IH.
Qed.

Lemma lstrip_non_space (s : str) :
  non_space_chars (lstrip s) = non_space_chars s.
Proof.
  induction s as [|c rest IH]; [reflexivity|].
  unfold non_space_chars in *. cbn [lstrip filter].
  destruct (is_space c) eqn:Ec; cbn [negb]; [exact IH|].
  cbn [filter]. now rewrite Ec.
Qed.

Lemma lstrip_length (s : str) : (List.length (lstrip s) <= List.length s)%nat.
Proof.
  induction s as [|c rest IH]; cbn [lstrip]; [lia|].
  destruct (is_space c); cbn [List.length]; lia.
Qed.

Lemma re_sub_ws_length (text : str) : forall in_run,
  (List.length (re_sub_ws_from in_run text) <= List.length text)%nat.
Proof.
  induction text as [|c rest IH]; intros in_run; cbn [re_sub_ws_from];
    [lia|].
  destruct (is_space c); [destruct in_run|]; cbn [List.length].
  - specialize (IH true). lia.
  - specialize (IH true). lia.
  - specialize (IH false). lia.
Qed.

(** X3.  Cleaning only touches whitespace: the characters that are not
    whitespace come out unchanged and in the same order, and the text
    never gets longer. *)
Theorem clean_keeps_non_space (text : str) :
  non_space_chars (clean text) = non_space_chars text /\
  len (clean text) <= len text.
Proof.
  split.
  - unfold clean, strip, rstrip, non_space_chars.
    rewrite filter_rev.
    change (filter (fun c => negb (is_space c)) (lstrip (rev (lstrip (re_sub_ws text)))))
      with (non_space_chars (lstrip (rev (lstrip (re_sub_ws text))))).
    rewrite lstrip_non_space. unfold non_space_chars.
    rewrite filter_rev, rev_involutive.
    change (non_space_chars (lstrip (re_sub_ws text)) = non_space_chars text).
    rewrite lstrip_non_space. apply re_sub_ws_non_space.
  - unfold clean, strip, rstrip, len. rewrite length_rev.
    pose proof (lstrip_length (rev (lstrip (re_sub_ws text)))) as H1.
    rewrite length_rev in H1.
    pose proof (lstrip_length (re_sub_ws text)) as H2.
    pose proof (re_sub_ws_length text false) as H3.
    unfold re_sub_ws in *. lia.
Qed.

(* ================================================================== *)
(** * More about the chunker: sizes, progress, coverage *)
(* ================================================================== *)

(** The length of a slice is at most the distance between its bounds,
    unless the upper bound alone counts from the end. *)
Lemma len_slice_bound (s : str) (lo hi : Z) :
  0 <= hi \/ lo < 0 -> len (slice s lo hi) <= Z.max 0 (hi - lo).
Proof.
  intros Hb. unfold slice, clamp_index, len.
  rewrite length_firstn, length_skipn.
  destruct (lo <? 0) eqn:El; destruct (hi <? 0) eqn:Eh;
    try apply Z.ltb_lt in El; try apply Z.ltb_ge in El;
    try apply Z.ltb_lt in Eh; try apply Z.ltb_ge in Eh; lia.
Qed.

Lemma cut_chunk_len (self : Vectorizer) (text : str) (start : Z) :
  0 <= chunk_size self ->
  len (fst (cut self text start)) <= chunk_size self.
Proof.
  intros Hsize.
  assert (Hcand : len (slice text start (size_limit self text start))
                  <= chunk_size self).
  { pose proof (len_nonneg text) as Hlen.
    assert (Hlim : size_limit self text start <= start + chunk_size self).
    { unfold size_limit.
      destruct (start + chunk_size self >? len text) eqn:E; [|lia].
      rewrite Z.gtb_ltb in E. apply Z.ltb_lt in E. lia. }
    assert (Hb : 0 <= size_limit self text start \/ start < 0).
    { unfold size_limit.
      destruct (start + chunk_size self >? len text); lia. }
    pose proof (len_slice_bound text start _ Hb). lia. }
  rewrite cut_unfold. cbv zeta.
  destruct (size_limit self text start <? len text); [|exact Hcand].
  destruct (_ && _).
  - cbn [fst]. pose proof (len_slice_le
      (slice text start (size_limit self text start)) 0
      (rfind (slice text start (size_limit self text start)) PARA_BREAK)).
    lia.
  - destruct (_ && _); [|exact Hcand].
    cbn [fst]. pose proof (len_slice_le
      (slice text start (size_limit self text start)) 0
      (rfind (slice text start (size_limit self text start))
         SENTENCE_BREAK + 1)).
    lia.
Qed.

Lemma loop_body_chunks_bounded (self : Vectorizer) (text : str)
  (st : loop_state) :
  0 <= chunk_size self ->
  Forall (fun c => len c <= chunk_size self) (snd st) ->
  Forall (fun c => len c <= chunk_size self)
         (snd (loop_body self text st)).
Proof.
  intros Hsize Hst. unfold loop_body.
  pose proof (cut_chunk_len self text (fst st) Hsize) as Hc.
  destruct (cut self text (fst st)) as [chunk end_]. cbn [fst snd] in *.
  apply Forall_app. split; [exact Hst|]. now constructor.
Qed.

Lemma passes_chunks_bounded (self : Vectorizer) (text : str) (n : nat) :
  0 <= chunk_size self ->
  forall st,
    Forall (fun c => len c <= chunk_size self) (snd st) ->
    Forall (fun c => len c <= chunk_size self)
           (snd (passes n self text st)).
Proof.
  intros Hsize. induction n as [|n IH]; intros st Hst; cbn [passes];
    [exact Hst|].
  destruct (fst st <? len text); [|exact Hst].
  apply IH. now apply loop_body_chunks_bounded.
Qed.

Lemma while_loop_chunks_bounded (self : Vectorizer) (text : str)
  (fuel : nat) :
  0 <= chunk_size self ->
  forall st chunks,
    Forall (fun c => len c <= chunk_size self) (snd st) ->
    while_loop fuel self text st = Some chunks ->
    Forall (fun c => len c <= chunk_size self) chunks.
Proof.
  intros Hsize. induction fuel as [|fuel IH]; intros st chunks Hst Hrun;
    cbn [while_loop] in Hrun; destruct (fst st <? len text).
  - discriminate.
  - now injection Hrun as <-.
  - apply (IH _ _ (loop_body_chunks_bounded self text st Hsize Hst) Hrun).
  - now injection Hrun as <-.
Qed.

(** X4.  No chunk is longer than [chunk_size] (taken not negative):
    neither among the chunks the loop has emitted after any number of
    passes, nor in a list [chunk_text] returns. *)
Theorem chunks_within_chunk_size (self : Vectorizer) (raw : str) :
  0 <= chunk_size self ->
  (forall n,
     Forall (fun c => len c <= chunk_size self)
            (snd (passes n self (clean raw) (0, [])))) /\
  (forall fuel chunks,
     chunk_text fuel self raw = Some chunks ->
     Forall (fun c => len c <= chunk_size self) chunks).
Proof.
  intros Hsize. split.
  - intros n. apply passes_chunks_bounded; [exact Hsize|constructor].
  - intros fuel chunks Hrun. unfold chunk_text in Hrun.
    destruct raw as [|c raw'].
    + injection Hrun as <-. constructor.
    + cbv zeta in Hrun.
      destruct (len (clean (c :: raw')) <=? chunk_size self) eqn:E.
      * injection Hrun as <-. apply Z.leb_le in E.
        constructor; [exact E|constructor].
      * apply (while_loop_chunks_bounded self (clean (c :: raw')) fuel
                 Hsize (0, []) chunks); [constructor|exact Hrun].
Qed.

Lemma chunks_within_chunk_size_witness :
  Forall (fun c => len c <= 20)
    (snd (passes 3 (mkVectorizer 20 5)
            (clean (lit "AAAAAAAAAA BBBBBBBBBB CCCCCCCCCC")) (0, []))).
Proof.
  refine (proj1 (chunks_within_chunk_size (mkVectorizer 20 5)
                   (lit "AAAAAAAAAA BBBBBBBBBB CCCCCCCCCC") _) 3%nat).
  cbn; lia.
Defined.

(** One pass from a cursor inside the text, with a chunk size of at least
    one: the chunk is [text[start:e]] for the new [end] [e], which lies
    beyond the cursor and not beyond the end of the text. *)
Lemma cut_progress (self : Vectorizer) (text : str) (start : Z) :
  1 <= chunk_size self -> 0 <= start < len text ->
  exists e, cut self text start = (slice text start e, e)
            /\ start < e <= len text.
Proof.
  intros Hsize Hstart.
  pose proof (size_limit_le self text start) as Hle.
  assert (Hgt : start < size_limit self text start).
  { unfold size_limit.
    destruct (start + chunk_size self >? len text); lia. }
  assert (Hdiv : 0 <= chunk_size self / 2) by (apply Z.div_pos; lia).
  rewrite cut_unfold. cbv zeta.
  destruct (size_limit self text start <? len text);
    [|exists (size_limit self text start); split; [reflexivity|lia]].
  remember (slice text start (size_limit self text start)) as chunk
    eqn:Hchunk.
  assert (Hclen : len chunk = size_limit self text start - start).
  { subst chunk. apply len_slice_in_range; lia. }
  assert (Hpre : forall k, 0 <= k <= len chunk ->
                           slice chunk 0 k = slice text start (start + k)).
  { intros k Hk. subst chunk. apply slice_slice_prefix; lia. }
  destruct (negb (rfind chunk PARA_BREAK =? -1)
            && (rfind chunk PARA_BREAK >? chunk_size self / 2)) eqn:Ep.
  - apply andb_prop in Ep. destruct Ep as [_ Ep].
    rewrite Z.gtb_ltb in Ep. apply Z.ltb_lt in Ep.
    destruct (rfind_spec chunk PARA_BREAK) as [E|[Hr _]]; [lia|].
    assert (Hsub : len PARA_BREAK = 2) by reflexivity.
    exists (start + rfind chunk PARA_BREAK). split.
    + now rewrite Hpre by lia.
    + lia.
  - destruct (negb (rfind chunk SENTENCE_BREAK =? -1)
              && (rfind chunk SENTENCE_BREAK >? chunk_size self / 2)) eqn:Es.
    + apply andb_prop in Es. destruct Es as [_ Es].
      rewrite Z.gtb_ltb in Es. apply Z.ltb_lt in Es.
      destruct (rfind_spec chunk SENTENCE_BREAK) as [E|[Hr _]]; [lia|].
      assert (Hsub : len SENTENCE_BREAK = 2) by reflexivity.
      exists (start + rfind chunk SENTENCE_BREAK + 1). split.
      * rewrite Hpre by lia. do 2 f_equal. lia.
      * lia.
    + exists (size_limit self text start). split; [now subst chunk|lia].
Qed.

Lemma while_loop_returns (self : Vectorizer) (text : str) :
  1 <= chunk_size self -> chunk_overlap self <= 0 ->
  forall fuel st,
    0 <= fst st -> len text - fst st <= Z.of_nat fuel ->
    exists chunks, while_loop fuel self text st = Some chunks.
Proof.
  intros Hsize Hov. induction fuel as [|fuel IH]; intros st H0 Hfuel;
    cbn [while_loop]; destruct (fst st <? len text) eqn:E;
    try (apply Z.ltb_lt in E); try (eexists; reflexivity).
  - lia.
  - apply IH.
    + unfold loop_body.
      destruct (cut_progress self text (fst st) Hsize ltac:(lia))
        as (e & -> & He). cbn [fst]. lia.
    + unfold loop_body.
      destruct (cut_progress self text (fst st) Hsize ltac:(lia))
        as (e & -> & He). cbn [fst]. lia.
Qed.

(** X5.  For a text that needs more than one chunk and a chunk size of at
    least one, [chunk_text] comes back exactly when the overlap is zero
    or negative; as many passes as the cleaned text has characters are
    then enough. *)
Theorem chunk_text_returns_iff (self : Vectorizer) (raw : str) :
  1 <= chunk_size self -> chunk_size self < len (clean raw) ->
  ((exists fuel chunks, chunk_text fuel self raw = Some chunks)
   <-> chunk_overlap self <= 0) /\
  (chunk_overlap self <= 0 ->
   exists chunks,
     chunk_text (Z.to_nat (len (clean raw))) self raw = Some chunks).
Proof.
  intros Hsize Hlong.
  assert (Hloop : forall fuel,
             chunk_text fuel self raw
             = while_loop fuel self (clean raw) (0, [])).
  { intros fuel. unfold chunk_text. destruct raw as [|c raw'].
    - rewrite clean_nil in Hlong. unfold len in Hlong. simpl in Hlong. lia.
    - cbv zeta.
      destruct (len (clean (c :: raw')) <=? chunk_size self) eqn:E;
        [apply Z.leb_le in E; lia|reflexivity]. }
  assert (Hback : chunk_overlap self <= 0 ->
                  exists chunks,
                    chunk_text (Z.to_nat (len (clean raw))) self raw
                    = Some chunks).
  { intros Hov. rewrite Hloop.
    apply while_loop_returns; try assumption; cbn [fst]; lia. }
  split; [split|exact Hback].
  - intros (fuel & chunks & Hrun).
    destruct (Z.le_gt_cases (chunk_overlap self) 0) as [H|H]; [exact H|].
    rewrite Hloop in Hrun.
    rewrite (while_loop_no_exit self (clean raw) ltac:(lia) fuel (0, []))
      in Hrun by (cbn [fst]; lia).
    discriminate Hrun.
  - intros Hov. destruct (Hback Hov) as (chunks & Hrun).
    now exists (Z.to_nat (len (clean raw))), chunks.
Qed.

Lemma chunk_text_returns_iff_witness :
  exists chunks,
    chunk_text 32 (mkVectorizer 20 0)
      (lit "AAAAAAAAAA BBBBBBBBBB CCCCCCCCCC") = Some chunks.
Proof.
  refine (proj2 (chunk_text_returns_iff (mkVectorizer 20 0)
                   (lit "AAAAAAAAAA BBBBBBBBBB CCCCCCCCCC") _ _) _).
  - cbn; lia.
  - vm_compute; reflexivity.
  - cbn; lia.
Defined.

Lemma slice_all (s : str) : slice s 0 (len s) = s.
Proof.
  rewrite slice_in_range by (pose proof (len_nonneg s); lia).
  cbn [Z.to_nat skipn]. rewrite Z.sub_0_r. unfold len.
  rewrite Nat2Z.id. apply firstn_all.
Qed.

Lemma slice_empty (s : str) : slice s 0 0 = [].
Proof.
  rewrite slice_in_range by (pose proof (len_nonneg s); lia). reflexivity.
Qed.

Lemma while_loop_covers (self : Vectorizer) (text : str) :
  1 <= chunk_size self -> chunk_overlap self = 0 ->
  forall fuel st chunks,
    cover_inv text st ->
    while_loop fuel self text st = Some chunks ->
    List.concat chunks = text /\ Forall (fun c => 1 <= len c) chunks.
Proof.
  intros Hsize Hov. induction fuel as [|fuel IH];
    intros st chunks (Hst & Hcat & Hne) Hrun;
    cbn [while_loop] in Hrun; destruct (fst st <? len text) eqn:E;
    try discriminate.
  - apply Z.ltb_ge in E. injection Hrun as <-.
    replace (fst st) with (len text) in Hcat by lia.
    now rewrite slice_all in Hcat.
  - apply Z.ltb_lt in E.
    refine (IH (loop_body self text st) chunks _ Hrun). clear IH Hrun.
    unfold loop_body, cover_inv.
    destruct (cut_progress self text (fst st) Hsize ltac:(lia))
      as (e & -> & He).
    rewrite Hov, Z.sub_0_r. cbn [fst snd].
    split; [lia|]. split.
    + rewrite concat_app, Hcat. cbn [List.concat]. rewrite app_nil_r.
      symmetry. apply slice_split; lia.
    + apply Forall_app. split; [exact Hne|].
      constructor; [|constructor].
      rewrite len_slice_in_range by lia. lia.
  - apply Z.ltb_ge in E. injection Hrun as <-.
    replace (fst st) with (len text) in Hcat by lia.
    now rewrite slice_all in Hcat.
Qed.

(** X6.  With [chunk_overlap = 0] and a chunk size of at least one,
    [chunk_text] returns (as many passes as the cleaned text has
    characters are enough), and the chunks it returns, put end to end,
    are exactly the cleaned text: nothing is lost and nothing repeated.
    When the text needed the loop, no chunk is empty. *)
Theorem zero_overlap_chunks_cover_text (self : Vectorizer) (raw : str) :
  chunk_overlap self = 0 -> 1 <= chunk_size self ->
  (exists chunks,
     chunk_text (Z.to_nat (len (clean raw))) self raw = Some chunks) /\
  (forall fuel chunks,
     chunk_text fuel self raw = Some chunks ->
     List.concat chunks = clean raw /\
     (chunk_size self < len (clean raw) ->
      Forall (fun c => 1 <= len c) chunks)).
Proof.
  intros Hov Hsize. split.
  - unfold chunk_text. destruct raw as [|c raw']; [eexists; reflexivity|].
    cbv zeta. destruct (len (clean (c :: raw')) <=? chunk_size self);
      [eexists; reflexivity|].
    apply while_loop_returns; try assumption; cbn [fst]; lia.
  - intros fuel chunks Hrun. unfold chunk_text in Hrun.
    destruct raw as [|c raw'].
    + injection Hrun as <-. split; [reflexivity|].
      intros H. rewrite clean_nil in H. unfold len in H. simpl in H. lia.
    + cbv zeta in Hrun.
      destruct (len (clean (c :: raw')) <=? chunk_size self) eqn:E.
      * injection Hrun as <-. split.
        -- cbn [List.concat]. apply app_nil_r.
        -- intros H. apply Z.leb_le in E. lia.
      * destruct (while_loop_covers self (clean (c :: raw')) Hsize Hov
                    fuel (0, []) chunks) as [Hcat Hne];
          [|exact Hrun|split; [exact Hcat|intros _; exact Hne]].
        unfold cover_inv. cbn [fst snd List.concat].
        rewrite slice_empty. pose proof (len_nonneg (clean (c :: raw'))).
        repeat split; try lia. constructor.
Qed.

Lemma zero_overlap_chunks_cover_text_witness :
  (exists chunks,
     chunk_text 32 (mkVectorizer 20 0)
       (lit "AAAAAAAAAA. BBBBBBBBB CCCCCCCCCC") = Some chunks) /\
  (forall fuel chunks,
     chunk_text fuel (mkVectorizer 20 0)
       (lit "AAAAAAAAAA. BBBBBBBBB CCCCCCCCCC") = Some chunks ->
     List.concat chunks = clean (lit "AAAAAAAAAA. BBBBBBBBB CCCCCCCCCC") /\
     (20 < len (clean (lit "AAAAAAAAAA. BBBBBBBBB CCCCCCCCCC")) ->
      Forall (fun c => 1 <= len c) chunks)).
Proof.
  apply (zero_overlap_chunks_cover_text (mkVectorizer 20 0)
           (lit "AAAAAAAAAA. BBBBBBBBB CCCCCCCCCC")).
  - reflexivity.
  - cbn; lia.
Defined.

(* ================================================================== *)
(** * More about the chunk table *)
(* ================================================================== *)

Lemma str_eqb_neq (a b : str) : a <> b -> str_eqb a b = false.
Proof.
  intros H. unfold str_eqb.
  destruct (list_eq_dec N.eq_dec a b); [contradiction|reflexivity].
Qed.

Lemma lit_inj (a b : string) : lit a = lit b -> a = b.
Proof.
  unfold lit. intros H.
  rewrite <- (string_of_list_ascii_of_string a),
          <- (string_of_list_ascii_of_string b).
  f_equal.
  revert H. generalize (list_ascii_of_string a) (list_ascii_of_string b).
  induction l as [|x l IH]; intros [|y m] H; try discriminate;
    [reflexivity|].
  cbn [map] in H. injection H as Hxy Hlm.
  f_equal; [|now apply IH].
  rewrite <- (ascii_N_embedding x), <- (ascii_N_embedding y).
  now rewrite Hxy.
Qed.

Lemma to_uint_nonnil (n : nat) : Nat.to_uint n <> Decimal.Nil.
Proof.
  rewrite <- (DecimalNat.Unsigned.of_to n) at 1.
  rewrite DecimalNat.Unsigned.to_of.
  apply DecimalFacts.unorm_nonnil.
Qed.

(** Two chunk indices give two chunk ids. *)
Lemma make_chunk_id_inj (document_id : str) (i j : nat) :
  make_chunk_id document_id i = make_chunk_id document_id j -> i = j.
Proof.
  unfold make_chunk_id. intros H.
  apply app_inv_head, app_inv_head, lit_inj in H.
  apply DecimalNat.Unsigned.to_uint_inj.
  pose proof (NilZero.usu _ (to_uint_nonnil i)) as Hi.
  pose proof (NilZero.usu _ (to_uint_nonnil j)) as Hj.
  rewrite H in Hi. congruence.
Qed.

(** What a call of [vectorize_document] that comes back has done: it has
    added rows of its own document, one per chunk, numbered from 0; it
    returns their ids, or raises after adding nothing. *)
Lemma vectorize_document_rows (fuel : nat) (self : Vectorizer)
  (pg : Postgres) (coll : collection) (document_id : str) (db db1 : table)
  (out : outcome (list str)) :
  vectorize_document fuel self pg coll document_id db = Some (db1, out) ->
  exists new : table,
    db1 = db ++ new /\
    Forall (fun r => DocumentEmbedding.document_id r = document_id) new /\
    map DocumentEmbedding.chunk_id new
      = map (make_chunk_id document_id) (seq 0 (List.length new)) /\
    (out = Returned (map DocumentEmbedding.chunk_id new)
     \/ (new = [] /\ exists e, out = Raised e)).
Proof.
  destruct out as [chunk_ids|e].
  - intros H.
    destruct (vectorize_document_returned _ _ _ _ _ _ _ _ H)
      as (chunks & _ & -> & -> & _).
    eexists. split; [reflexivity|]. split; [|split].
    + apply Forall_forall. intros r Hr. apply in_map_iff in Hr.
      now destruct Hr as (ic & <- & _).
    + rewrite !map_map, length_map. cbn [DocumentEmbedding.chunk_id].
      rewrite <- (map_map fst (make_chunk_id document_id)).
      unfold enumerate.
      now rewrite enumerate_from_indices, enumerate_from_length.
    + left. now rewrite map_map.
  - unfold vectorize_document.
    destruct (find_one coll document_id) as [doc|]; [|discriminate].
    destruct (chunk_content fuel self (content_of doc)) as [[chunks|e']|];
      try discriminate.
    + destruct (add_chunks document_id chunks) as [pending chunk_ids].
      destruct (commit_rows pg document_id pending db); [discriminate|].
      intros H. injection H as <- <-. exists [].
      rewrite app_nil_r.
      split; [reflexivity|]. split; [constructor|]. split; [reflexivity|].
      right. split; [reflexivity|now eexists].
    + intros H. injection H as <- <-. exists [].
      rewrite app_nil_r.
      split; [reflexivity|]. split; [constructor|]. split; [reflexivity|].
      right. split; [reflexivity|now eexists].
Qed.

(** X7.  [vectorize_document] for a document id that no stored document
    carries returns the empty list of chunk ids and leaves the table as it
    is. *)
Theorem vectorize_unknown_document (fuel : nat) (self : Vectorizer)
  (pg : Postgres) (coll : collection) (document_id : str) (db : table) :
  (forall doc, In doc coll ->
               dict_get doc "document_id" <> Some (VStr document_id)) ->
  vectorize_document fuel self pg coll document_id db
    = Some (db, Returned []).
Proof.
  intros Hunknown. unfold vectorize_document.
  now rewrite (find_one_unknown coll document_id Hunknown).
Qed.

Lemma vectorize_unknown_document_witness :
  let id := lit "123e4567-e89b-12d3-a456-426614174000" in
  let other := lit "00000000-0000-0000-0000-000000000000" in
  let pg := mkPostgres canonical_uuid (fun _ => true) in
  let row := DocumentEmbedding.mk id (lit "123e4567-e89b-12d3-a456-426614174000-chunk-0") (lit "hello")
               None in
  vectorize_document 0 (mkVectorizer 1000 200) pg
    [[("document_id", VStr id); ("content", VStr (lit "hello"))]%string]
    other [row]
  = Some ([row], Returned []).
Proof.
  intros id other pg row.
  apply vectorize_unknown_document.
  intros d [<-|[]]. vm_compute. discriminate.
Defined.

Lemma NoDup_map_injective {A B : Type} (f : A -> B) (l : list A) :
  (forall x y, f x = f y -> x = y) -> NoDup l -> NoDup (map f l).
Proof.
  intros Hinj. induction 1 as [|x l Hx Hnd IH]; cbn [map]; constructor.
  - intros Hin. apply in_map_iff in Hin. destruct Hin as (y & Hy & Hin).
    apply Hinj in Hy. now subst y.
  - exact IH.
Qed.

(** X8.  The chunk ids one call of [vectorize_document] returns are all
    different. *)
Theorem vectorize_chunk_ids_distinct (fuel : nat) (self : Vectorizer)
  (pg : Postgres) (coll : collection) (document_id : str) (db db1 : table)
  (chunk_ids : list str) :
  vectorize_document fuel self pg coll document_id db
    = Some (db1, Returned chunk_ids) ->
  NoDup chunk_ids.
Proof.
  intros H.
  destruct (vectorize_document_rows _ _ _ _ _ _ _ _ H)
    as (new & _ & _ & Hids & [Hout|(_ & e & Hout)]); [|discriminate Hout].
  injection Hout as ->. rewrite Hids.
  apply NoDup_map_injective; [|apply seq_NoDup].
  intros i j. apply make_chunk_id_inj.
Qed.

Lemma vectorize_chunk_ids_distinct_witness :
  NoDup [lit "123e4567-e89b-12d3-a456-426614174000-chunk-0"; lit "123e4567-e89b-12d3-a456-426614174000-chunk-1"].
Proof.
  apply (vectorize_chunk_ids_distinct 9 (mkVectorizer 10 0)
           (mkPostgres canonical_uuid (fun _ => true))
           [[("document_id", VStr (lit "123e4567-e89b-12d3-a456-426614174000"));
             ("content", VStr (lit "hello world, again"))]%string]
           (lit "123e4567-e89b-12d3-a456-426614174000") []
           [DocumentEmbedding.mk (lit "123e4567-e89b-12d3-a456-426614174000") (lit "123e4567-e89b-12d3-a456-426614174000-chunk-0")
              (lit "hello worl") None;
            DocumentEmbedding.mk (lit "123e4567-e89b-12d3-a456-426614174000") (lit "123e4567-e89b-12d3-a456-426614174000-chunk-1")
              (lit "d, again") None]).
  vm_compute. reflexivity.
Defined.

(** X9.  Every chunk id that [vectorize_document] has returned can then be
    given an embedding: [update_embedding] on the table it left returns
    [True]. *)
Theorem update_embedding_after_vectorize {F : Type}
  (py_str : list F -> str) (fuel : nat) (self : Vectorizer)
  (pg : Postgres) (coll : collection) (document_id : str) (db db1 : table)
  (chunk_ids : list str) (chunk_id : str) (embedding : list F) :
  vectorize_document fuel self pg coll document_id db
    = Some (db1, Returned chunk_ids) ->
  In chunk_id chunk_ids ->
  snd (update_embedding py_str chunk_id embedding db1) = true.
Proof.
  intros H Hin.
  destruct (vectorize_document_rows _ _ _ _ _ _ _ _ H)
    as (new & -> & _ & _ & [Hout|(_ & e & Hout)]); [|discriminate Hout].
  injection Hout as ->. apply in_map_iff in Hin.
  destruct Hin as (r & Hr & Hin).
  unfold update_embedding.
  destruct (set_first_embedding chunk_id (py_str embedding) (db ++ new))
    as [db'|] eqn:E; [reflexivity|].
  exfalso.
  apply (proj1 (set_first_embedding_none _ _ _) E r); [|exact Hr].
  apply in_or_app. now right.
Qed.

Lemma update_embedding_after_vectorize_witness :
  snd (update_embedding (fun _ : list nat => lit "[0.5]")
         (lit "123e4567-e89b-12d3-a456-426614174000-chunk-0") [1%nat]
         [DocumentEmbedding.mk (lit "123e4567-e89b-12d3-a456-426614174000") (lit "123e4567-e89b-12d3-a456-426614174000-chunk-0")
            (lit "hello") None]) = true.
Proof.
  apply (update_embedding_after_vectorize (fun _ : list nat => lit "[0.5]")
           0 (mkVectorizer 1000 200)
           (mkPostgres canonical_uuid (fun _ => true))
           [[("document_id", VStr (lit "123e4567-e89b-12d3-a456-426614174000"));
             ("content", VStr (lit "hello"))]%string]
           (lit "123e4567-e89b-12d3-a456-426614174000") [] _ [lit "123e4567-e89b-12d3-a456-426614174000-chunk-0"]).
  - vm_compute. reflexivity.
  - now left.
Defined.

Lemma Permutation_filter_both {A : Type} (f : A -> bool) (l l' : list A) :
  Permutation l l' -> Permutation (filter f l) (filter f l').
Proof.
  induction 1 as [|x l l' H IH|x y l|l l' l'' H1 IH1 H2 IH2]; cbn [filter].
  - constructor.
  - destruct (f x); [now constructor|exact IH].
  - destruct (f x), (f y); try apply Permutation_refl. constructor.
  - now apply Permutation_trans with (filter f l').
Qed.

(** The function [update_embedding] is one of the behaviours the code
    allows. *)
Lemma update_embedding_allowed {F : Type} (py_str : list F -> str)
  (chunk_id : str) (embedding : list F) (db : table) :
  update_embedding_allows chunk_id (py_str embedding) db
    (fst (update_embedding py_str chunk_id embedding db))
    (snd (update_embedding py_str chunk_id embedding db)).
Proof.
  unfold update_embedding, update_embedding_allows.
  destruct (set_first_embedding chunk_id (py_str embedding) db)
    as [db1|] eqn:E; cbn [fst snd].
  - right. split; [reflexivity|].
    destruct (set_first_embedding_some _ _ _ _ E)
      as (before & r & after & -> & Hr & _ & ->).
    exists r, (before ++ after). split; [|split].
    + apply Permutation_sym, Permutation_middle.
    + exact Hr.
    + apply Permutation_sym, Permutation_middle.
  - left. split; [reflexivity|]. split; [|apply Permutation_refl].
    now apply set_first_embedding_none with (e := py_str embedding).
Qed.

Lemma listing_permutation (document_id : str) (db db' : table) :
  Permutation db db' ->
  Permutation (map id_and_text (get_document_chunks document_id db))
              (map id_and_text (get_document_chunks document_id db')).
Proof.
  intros H. unfold get_document_chunks.
  apply Permutation_map, Permutation_map.
  now apply Permutation_filter_both.
Qed.

(** X10.  [update_embedding] never adds, removes or rewrites chunks.
    Whatever row with the chunk id [.first()] returns and in whatever
    order the store lists its rows, for every document
    [get_document_chunks] lists the same chunk ids with the same chunk
    texts, as many times each, before and after the call, whether it
    returns [True] or [False]. *)
Theorem update_embedding_keeps_listing (chunk_id e : str) (db db' : table)
  (ok : bool) (document_id : str) :
  update_embedding_allows chunk_id e db db' ok ->
  Permutation (map id_and_text (get_document_chunks document_id db'))
              (map id_and_text (get_document_chunks document_id db)).
Proof.
  intros [(_ & _ & Hperm)|(_ & r & rest & Hdb & _ & Hdb')].
  - now apply listing_permutation.
  - apply Permutation_trans
      with (map id_and_text (get_document_chunks document_id
              (DocumentEmbedding.set_embedding r (Some e) :: rest))).
    { now apply listing_permutation. }
    apply Permutation_trans
      with (map id_and_text (get_document_chunks document_id (r :: rest))).
    2: { apply listing_permutation. now apply Permutation_sym. }
    unfold get_document_chunks. cbn [filter DocumentEmbedding.set_embedding
      DocumentEmbedding.document_id].
    destruct (str_eqb (DocumentEmbedding.document_id r) document_id);
      apply Permutation_refl.
Qed.

Lemma update_embedding_keeps_listing_witness :
  let r := DocumentEmbedding.mk (lit "123e4567-e89b-12d3-a456-426614174000") (lit "123e4567-e89b-12d3-a456-426614174000-chunk-0")
             (lit "hello") None in
  let r' := DocumentEmbedding.mk (lit "123e4567-e89b-12d3-a456-426614174000") (lit "123e4567-e89b-12d3-a456-426614174000-chunk-0")
              (lit "hello") (Some (lit "[0.5]")) in
  Permutation (map id_and_text (get_document_chunks (lit "123e4567-e89b-12d3-a456-426614174000") [r'; r]))
              (map id_and_text (get_document_chunks (lit "123e4567-e89b-12d3-a456-426614174000") [r; r])).
Proof.
  intros r r'.
  apply (update_embedding_keeps_listing (lit "123e4567-e89b-12d3-a456-426614174000-chunk-0") (lit "[0.5]")
           [r; r] [r'; r] true (lit "123e4567-e89b-12d3-a456-426614174000")).
  right. split; [reflexivity|]. exists r, [r].
  split; [apply Permutation_refl|]. split; [reflexivity|].
  apply Permutation_refl.
Defined.

(** X11.  After [update_embedding] has returned [True], the listing of the
    document that owns the updated row shows the chunk id with the new
    embedding (the text that [str(embedding)] gives). *)
Theorem update_embedding_is_listed {F : Type} (py_str : list F -> str)
  (chunk_id : str) (embedding : list F) (db : table) :
  snd (update_embedding py_str chunk_id embedding db) = true ->
  exists r,
    In r db /\ DocumentEmbedding.chunk_id r = chunk_id /\
    In (mkChunkInfo chunk_id (DocumentEmbedding.chunk_text r)
          (Some (py_str embedding)))
       (get_document_chunks (DocumentEmbedding.document_id r)
          (fst (update_embedding py_str chunk_id embedding db))).
Proof.
  unfold update_embedding.
  destruct (set_first_embedding chunk_id (py_str embedding) db)
    as [db1|] eqn:E; cbn [fst snd]; [intros _|discriminate].
  destruct (set_first_embedding_some _ _ _ _ E)
    as (before & r & after & -> & Hr & _ & ->).
  exists r. split; [apply in_or_app; right; now left|].
  split; [exact Hr|].
  unfold get_document_chunks. apply in_map_iff.
  exists (DocumentEmbedding.set_embedding r (Some (py_str embedding))).
  split.
  - unfold chunk_info_of. cbn. now rewrite Hr.
  - apply filter_In. split.
    + apply in_or_app. right. now left.
    + cbn. apply str_eqb_refl.
Qed.

Lemma update_embedding_is_listed_witness :
  exists r,
    In r [DocumentEmbedding.mk (lit "d1") (lit "d1-chunk-0")
            (lit "hello") None] /\
    DocumentEmbedding.chunk_id r = lit "d1-chunk-0" /\
    In (mkChunkInfo (lit "d1-chunk-0") (DocumentEmbedding.chunk_text r)
          (Some (lit "[0.5]")))
       (get_document_chunks (DocumentEmbedding.document_id r)
          (fst (update_embedding (fun _ : list nat => lit "[0.5]")
                  (lit "d1-chunk-0") [1%nat]
                  [DocumentEmbedding.mk (lit "d1") (lit "d1-chunk-0")
                     (lit "hello") None]))).
Proof.
  apply (update_embedding_is_listed (fun _ : list nat => lit "[0.5]")
           (lit "d1-chunk-0") [1%nat]).
  vm_compute. reflexivity.
Defined.

Lemma set_embedding_twice (r : DocumentEmbedding.t) (e : option str) :
  DocumentEmbedding.set_embedding (DocumentEmbedding.set_embedding r e) e
  = DocumentEmbedding.set_embedding r e.
Proof. reflexivity. Qed.

Lemma filter_nil_none {A : Type} (f : A -> bool) (l : list A) :
  List.length (filter f l) = 0%nat -> forall x, In x l -> f x = false.
Proof.
  intros H x Hin. destruct (f x) eqn:E; [|reflexivity].
  assert (Hx : In x (filter f l)) by (apply filter_In; now split).
  destruct (filter f l); [destruct Hx|discriminate H].
Qed.

Lemma str_eqb_true_iff (a b : str) : str_eqb a b = true <-> a = b.
Proof.
  split; [apply str_eqb_eq|]. intros ->. apply str_eqb_refl.
Qed.

(** X12.  When at most one row carries the chunk id, storing the same
    embedding for it a second time changes nothing: the second call
    returns what the first returned and leaves the rows the first call
    left, in whatever order the store lists them.  (With the chunk id on
    two rows the second call may pick the other row.) *)
Theorem update_embedding_idempotent (chunk_id e : str)
  (db db1 db2 : table) (ok1 ok2 : bool) :
  (List.length
     (filter (fun r => str_eqb (DocumentEmbedding.chunk_id r) chunk_id) db)
   <= 1)%nat ->
  update_embedding_allows chunk_id e db db1 ok1 ->
  update_embedding_allows chunk_id e db1 db2 ok2 ->
  ok2 = ok1 /\ Permutation db2 db1.
Proof.
  set (has_id := fun r => str_eqb (DocumentEmbedding.chunk_id r) chunk_id).
  intros Hone
    [(-> & Hnone & Hdb1)|(-> & r & rest & Hdb & Hr & Hdb1)]
    [(-> & Hnone2 & Hdb2)|(-> & r2 & rest2 & Hdb1' & Hr2 & Hdb2)].
  - split; [reflexivity|exact Hdb2].
  - exfalso. apply (Hnone r2); [|exact Hr2].
    apply (Permutation_in _ Hdb1).
    apply (Permutation_in _ (Permutation_sym Hdb1')). now left.
  - exfalso.
    apply (Hnone2 (DocumentEmbedding.set_embedding r (Some e))); [|exact Hr].
    apply (Permutation_in _ (Permutation_sym Hdb1)). now left.
  - split; [reflexivity|].
    assert (Hrest : forall x, In x rest -> has_id x = false).
    { apply filter_nil_none.
      pose proof (Permutation_length
                    (Permutation_filter_both has_id _ _ Hdb)) as Hlen.
      cbn [filter] in Hlen. unfold has_id at 2 in Hlen.
      rewrite (proj2 (str_eqb_true_iff _ _) Hr) in Hlen.
      cbn [List.length] in Hlen. fold has_id in Hone. lia. }
    assert (Hin : In r2 (DocumentEmbedding.set_embedding r (Some e) :: rest)).
    { apply (Permutation_in _ Hdb1).
      apply (Permutation_in _ (Permutation_sym Hdb1')). now left. }
    destruct Hin as [<-|Hin].
    + rewrite set_embedding_twice in Hdb2.
      apply Permutation_trans with (1 := Hdb2).
      now apply Permutation_sym.
    + exfalso. specialize (Hrest r2 Hin). unfold has_id in Hrest.
      rewrite (proj2 (str_eqb_true_iff _ _) Hr2) in Hrest.
      discriminate Hrest.
Qed.

Lemma update_embedding_idempotent_witness :
  let other := DocumentEmbedding.mk (lit "123e4567-e89b-12d3-a456-426614174000") (lit "123e4567-e89b-12d3-a456-426614174000-chunk-1")
                 (lit "world") None in
  let r := DocumentEmbedding.mk (lit "123e4567-e89b-12d3-a456-426614174000") (lit "123e4567-e89b-12d3-a456-426614174000-chunk-0")
             (lit "hello") None in
  let r' := DocumentEmbedding.mk (lit "123e4567-e89b-12d3-a456-426614174000") (lit "123e4567-e89b-12d3-a456-426614174000-chunk-0")
              (lit "hello") (Some (lit "[0.5]")) in
  true = true /\ Permutation [r'; other] [other; r'].
Proof.
  intros other r r'.
  apply (update_embedding_idempotent (lit "123e4567-e89b-12d3-a456-426614174000-chunk-0") (lit "[0.5]")
           [other; r] [other; r'] [r'; other] true true).
  - vm_compute. lia.
  - right. split; [reflexivity|]. exists r, [other].
    split; [apply perm_swap|]. split; [reflexivity|]. apply perm_swap.
  - right. split; [reflexivity|]. exists r', [other].
    split; [apply perm_swap|]. split; [reflexivity|]. apply Permutation_refl.
Defined.



(** X14.  A stored document without a [content] field, or with the empty
    string as content, gives no chunk: [vectorize_document] returns the
    empty list and adds no row. *)
Theorem vectorize_without_content (fuel : nat) (self : Vectorizer)
  (pg : Postgres) (coll : collection) (document_id : str) (db : table)
  (doc : document) :
  find_one coll document_id = Some doc ->
  dict_get doc "content" = None \/ dict_get doc "content" = Some (VStr []) ->
  vectorize_document fuel self pg coll document_id db
    = Some (db, Returned []).
Proof.
  intros Hfind Hcontent. unfold vectorize_document, content_of.
  rewrite Hfind.
  destruct Hcontent as [-> | ->]; reflexivity.
Qed.

Lemma vectorize_without_content_witness :
  vectorize_document 0 (mkVectorizer 1000 200)
    (mkPostgres canonical_uuid (fun _ => true))
    [[("document_id", VStr (lit "123e4567-e89b-12d3-a456-426614174000")); ("metadata", VDict [])]%string]
    (lit "123e4567-e89b-12d3-a456-426614174000") []
  = Some ([], Returned []).
Proof.
  apply (vectorize_without_content 0 (mkVectorizer 1000 200) _ _
           (lit "123e4567-e89b-12d3-a456-426614174000") []
           [("document_id", VStr (lit "123e4567-e89b-12d3-a456-426614174000"));
            ("metadata", VDict [])]%string).
  - vm_compute. reflexivity.
  - left. reflexivity.
Defined.

(* ================================================================== *)
(** * Ingest and read *)
(* ================================================================== *)

Lemma matches_of_field (document_id : str) (doc : document) :
  dict_get doc "document_id" = Some (VStr document_id) ->
  matches document_id doc = true.
Proof.
  intros H. unfold matches. rewrite H. cbn [value_eqb]. apply str_eqb_refl.
Qed.

Lemma find_one_app (coll : collection) (doc : document) (document_id : str) :
  find_one (coll ++ [doc]) document_id =
  match find_one coll document_id with
  | Some d => Some d
  | None => if matches document_id doc then Some doc else None
  end.
Proof.
  unfold find_one. induction coll as [|d rest IH]; cbn [app find].
  - destruct (matches document_id doc); reflexivity.
  - destruct (matches document_id d); [reflexivity|exact IH].
Qed.

(** The stored document of [process_document] is found under its own id
    and under no other. *)
Lemma matches_new_document (other uuid4 : str) (oid : Z) (rest : document) :
  matches other
    (("_id"%string, VInt oid) :: ("document_id"%string, VStr uuid4) :: rest)
  = str_eqb uuid4 other.
Proof. reflexivity. Qed.

(** X15.  Ingest, then read.  When the id drawn by [process_document] is
    carried by no stored document and parses as a UUID,
    [get_document_content] for the returned id gives the content as
    ingested, the metadata built from the title, description, owner, tags
    and file format, and an empty version history. *)
Theorem process_then_get_content {U : Type} (parse_uuid : str -> option U)
  (coll : collection) (uuid4 : str) (u : U) (oid now1 now2 : Z)
  (document : DocumentCreate.t) :
  (forall doc, In doc coll ->
               dict_get doc "document_id" <> Some (VStr uuid4)) ->
  parse_uuid uuid4 = Some u ->
  let result := process_document coll uuid4 oid now1 now2 document in
  snd result = uuid4 /\
  get_document_content parse_uuid (fst result) (snd result)
  = inr (Some
      (mkDocumentContent u (DocumentCreate.content document)
         [("title", VStr (DocumentCreate.title document));
          ("description",
           optional_str (DocumentCreate.description document));
          ("owner_email", VStr (DocumentCreate.owner_email document));
          ("tags", VList (tags_or_empty (DocumentCreate.tags document)));
          ("file_format",
           optional_str (DocumentCreate.file_format document))]%string
         [])).
Proof.
  intros Hfresh Hparse result. split; [reflexivity|].
  unfold result, process_document, insert_one. cbn [fst snd].
  unfold get_document_content.
  rewrite find_one_app, (find_one_unknown coll uuid4 Hfresh).
  rewrite matches_new_document, str_eqb_refl.
  cbn [dict_get String.eqb Ascii.eqb Bool.eqb].
  unfold validate_content. rewrite Hparse. reflexivity.
Qed.

Lemma process_then_get_content_witness :
  let document :=
    DocumentCreate.mk (lit "Plan") POLICY None (lit "00000000-0000-0000-0000-000000000000")
      (lit "a@b.c") (Some [lit "x"; lit "y"]) (lit "text")
      (Some (lit "docx")) in
  let result := process_document [] (lit "123e4567-e89b-12d3-a456-426614174000") 7 1 2 document in
  snd result = lit "123e4567-e89b-12d3-a456-426614174000" /\
  get_document_content (fun s => if canonical_uuid s then Some s else None)
    (fst result) (snd result)
  = inr (Some
      (mkDocumentContent (lit "123e4567-e89b-12d3-a456-426614174000") (lit "text")
         [("title", VStr (lit "Plan"));
          ("description", VNone);
          ("owner_email", VStr (lit "a@b.c"));
          ("tags", VList [VStr (lit "x"); VStr (lit "y")]);
          ("file_format", VStr (lit "docx"))]%string
         [])).
Proof.
  intros document.
  apply (process_then_get_content
           (fun s => if canonical_uuid s then Some s else None)
           [] (lit "123e4567-e89b-12d3-a456-426614174000") (lit "123e4567-e89b-12d3-a456-426614174000") 7 1 2 document).
  - intros doc [].
  - vm_compute. reflexivity.
Defined.

(** X16.  Ingesting a document changes nothing for the others: for every
    id other than the one drawn, [get_document_content] answers after
    [process_document] what it answered before. *)
Theorem process_keeps_other_documents {U : Type}
  (parse_uuid : str -> option U) (coll : collection) (uuid4 other : str)
  (oid now1 now2 : Z) (document : DocumentCreate.t) :
  other <> uuid4 ->
  get_document_content parse_uuid
    (fst (process_document coll uuid4 oid now1 now2 document)) other
  = get_document_content parse_uuid coll other.
Proof.
  intros Hother. unfold process_document, insert_one. cbn [fst].
  unfold get_document_content. rewrite find_one_app.
  rewrite matches_new_document, str_eqb_neq by congruence.
  destruct (find_one coll other); reflexivity.
Qed.

Lemma process_keeps_other_documents_witness :
  let coll := [[("document_id", VStr (lit "d0"));
                ("content", VStr (lit "old"));
                ("metadata", VDict []);
                ("version_history", VList [])]%string] in
  let document :=
    DocumentCreate.mk (lit "Plan") POLICY None (lit "org-1")
      (lit "a@b.c") None (lit "text") None in
  get_document_content (fun s => Some s)
    (fst (process_document coll (lit "d1") 7 1 2 document)) (lit "d0")
  = get_document_content (fun s => Some s) coll (lit "d0").
Proof.
  intros coll document.
  apply (process_keeps_other_documents (fun s => Some s) coll
           (lit "d1") (lit "d0") 7 1 2 document).
  vm_compute. discriminate.
Defined.

(** X17.  [get_document_content] returns [None] exactly when no stored
    document carries the id; a document that is found gives a
    [DocumentContent] or an error, never [None]. *)
Theorem get_content_none_iff_unknown {U : Type}
  (parse_uuid : str -> option U) (coll : collection) (document_id : str) :
  get_document_content parse_uuid coll document_id = inr None <->
  (forall doc, In doc coll ->
               dict_get doc "document_id" <> Some (VStr document_id)).
Proof.
  split.
  - intros H doc Hin Hfield. unfold get_document_content in H.
    destruct (find_one coll document_id) as [d|] eqn:Efind.
    + destruct (dict_get d "document_id"), (dict_get d "content"),
        (dict_get d "metadata"), (dict_get d "version_history");
        try discriminate H.
      destruct (validate_content parse_uuid v v0 v1 v2); discriminate H.
    + unfold find_one in Efind.
      pose proof (find_none _ _ Efind doc Hin) as Hm.
      rewrite (matches_of_field document_id doc Hfield) in Hm.
      discriminate Hm.
  - intros Hunknown. unfold get_document_content.
    now rewrite (find_one_unknown coll document_id Hunknown).
Qed.


